(** * The visitor pattern of [behavioral/visitor.py]

    A shallow embedding of the expression nodes, of the [NodeVisitor]
    dispatcher and of the [Evaluator] strategy, over a small model of the
    Python object store.

    Conventions of the embedding:
    - Python values are integers (unbounded, [Z]), floats (IEEE binary64,
      Rocq's primitive floats), [None], and references to instances of the
      classes the module declares.  Strings, booleans and user classes other
      than the nine of the module are outside the modelled fragment.
    - Instances live in a store (a list of objects, a reference is an index);
      an instance carries its class and its attribute dictionary.
    - A computation threads a [world] (the store and a channel of observable
      events) and ends in [Return v] or in [Raise e]; an exception keeps the
      world reached when it was raised.
    - Arithmetic is the one of Python 3: [/] is true division.
    - The interpreter's recursion limit is the [depth] argument of [visit]:
      when it is exhausted, [RecursionError] is raised. *)

From Stdlib Require Import Floats ZArith.
From stdpp Require Import gmap strings list.

(* [0.6] stands for the binary64 value nearest to it, as it does in the
   assertion of the module. *)
Set Warnings "-inexact-float".

Local Open Scope Z_scope.

(** ** Values, classes and exceptions *)

Definition loc := nat.

Inductive val :=
| VInt (z : Z)
| VFloat (f : float)
| VNone
| VRef (l : loc).

(** The classes declared by the module; an instance of [cls.Add] is what
    [Add(l, r)] creates. *)
Module cls.
Inductive t :=
| Node | UnaryOperator | BinaryOperator
| Add | Sub | Mul | Div | Negate | Number.

(** [type(node).__name__] of an instance. *)
Definition name (c : t) : string :=
  match c with
  | Node => "Node"
  | UnaryOperator => "UnaryOperator"
  | BinaryOperator => "BinaryOperator"
  | Add => "Add"
  | Sub => "Sub"
  | Mul => "Mul"
  | Div => "Div"
  | Negate => "Negate"
  | Number => "Number"
  end.
End cls.

(** An instance: its class and its [__dict__]. *)
Record object := Instance { ob_type : cls.t; ob_dict : gmap string val }.

(** The reasons for which the modelled fragment raises [TypeError]. *)
Inductive type_error :=
| BadArity (callee : string) (expected given : nat)
    (* callee() takes/misses positional arguments *)
| BadUnaryOperand          (* bad operand type for unary - *)
| UnsupportedOperands (op : string)
    (* unsupported operand type(s) for op *)
| BadFloatArgument.        (* float() argument must be a string or a number *)

Inductive exn :=
| TypeError (why : type_error)
| AttributeError (attr : string)
| ZeroDivisionError
| OverflowError
| RecursionError
| RuntimeError (msg : string)
| InvalidReference.        (* a reference outside the store; no Python
                              program can produce one *)

Inductive outcome (A : Type) :=
| Return (a : A)
| Raise (e : exn).
Arguments Return {A} a.
Arguments Raise {A} e.

Definition outcome_map {A B} (f : A -> B) (o : outcome A) : outcome B :=
  match o with
  | Return a => Return (f a)
  | Raise e => Raise e
  end.

Definition outcome_bind {A B} (o : outcome A) (k : A -> outcome B) : outcome B :=
  match o with
  | Return a => k a
  | Raise e => Raise e
  end.

(** ** Numbers

    [float(z)] for an integer: the nearest binary64 value, ties to even;
    [OverflowError] when that value is not finite. *)
Definition int_to_float (z : Z) : outcome float :=
  match binary_normalize prec emax z 0 false with
  | S754_infinity _ => Raise OverflowError
  | sf => Return (SF2Prim sf)
  end.

(** [a / b] for two integers: the correctly rounded quotient.  The quotient
    is computed with 64 spare bits and a sticky bit, then rounded once. *)
Definition int_true_divide (a b : Z) : outcome float :=
  if b =? 0 then Raise ZeroDivisionError else
  let k := Z.max 0 (Z.log2 (Z.abs b) + 64 - Z.log2 (Z.abs a)) in
  let n := Z.abs a * 2 ^ k in
  let q := n / Z.abs b in
  let sticky := if n mod Z.abs b =? 0 then 0 else 1 in
  let neg := xorb (a <? 0) (b <? 0) in
  let m := 2 * q + sticky in
  match binary_normalize prec emax (if neg then - m else m) (- (k + 1)) neg with
  | S754_infinity _ => Raise OverflowError
  | sf => Return (SF2Prim sf)
  end.

(** [a / b] for two floats: only a zero divisor is refused. *)
Definition float_divide (a b : float) : outcome float :=
  if PrimFloat.eqb b 0%float then Raise ZeroDivisionError
  else Return (a / b)%float.

(** The builtin [float(x)]. *)
Definition float_ (x : val) : outcome val :=
  match x with
  | VInt z => outcome_map VFloat (int_to_float z)
  | VFloat f => Return (VFloat f)
  | VNone | VRef _ => Raise (TypeError BadFloatArgument)
  end.

(** Unary minus. *)
Definition py_neg (x : val) : outcome val :=
  match x with
  | VInt z => Return (VInt (- z))
  | VFloat f => Return (VFloat (- f)%float)
  | VNone | VRef _ => Raise (TypeError BadUnaryOperand)
  end.

(** A binary arithmetic operator: on two integers [fz], otherwise both
    operands are taken to floats and [ff] applies. *)
Definition py_binop (op : string)
    (fz : Z -> Z -> outcome val) (ff : float -> float -> outcome float)
    (x y : val) : outcome val :=
  match x, y with
  | VInt a, VInt b => fz a b
  | VInt a, VFloat b =>
      outcome_bind (int_to_float a) (fun a' => outcome_map VFloat (ff a' b))
  | VFloat a, VInt b =>
      outcome_bind (int_to_float b) (fun b' => outcome_map VFloat (ff a b'))
  | VFloat a, VFloat b => outcome_map VFloat (ff a b)
  | _, _ => Raise (TypeError (UnsupportedOperands op))
  end.

Definition py_add : val -> val -> outcome val :=
  py_binop "+" (fun a b => Return (VInt (a + b)))
               (fun a b => Return (a + b)%float).
Definition py_sub : val -> val -> outcome val :=
  py_binop "-" (fun a b => Return (VInt (a - b)))
               (fun a b => Return (a - b)%float).
Definition py_mul : val -> val -> outcome val :=
  py_binop "*" (fun a b => Return (VInt (a * b)))
               (fun a b => Return (a * b)%float).
Definition py_truediv : val -> val -> outcome val :=
  py_binop "/" (fun a b => outcome_map VFloat (int_true_divide a b))
               float_divide.

(** ** The world and the computations over it *)

(** What a strategy with side effects lets an observer see: it entered the
    handler of a node, or that handler completed. *)
Inductive event :=
| Enter (node : val)
| Leave (node : val).

Record world := World { heap : list object; output : list event }.

Definition M (A : Type) : Type := world -> outcome A * world.

Definition ret {A} (a : A) : M A := fun w => (Return a, w).
Definition raise {A} (e : exn) : M A := fun w => (Raise e, w).
Definition bind {A B} (c : M A) (k : A -> M B) : M B :=
  fun w =>
    match c w with
    | (Return a, w') => k a w'
    | (Raise e, w') => (Raise e, w')
    end.
Definition lift {A} (o : outcome A) : M A := fun w => (o, w).

Declare Scope py_scope.
Delimit Scope py_scope with py.
Notation "'let*' x ':=' c 'in' k" := (bind c (fun x => k))
  (at level 10, x name, c at level 100, k at level 200) : py_scope.
Notation "c ';;;' k" := (bind c (fun _ => k))
  (at level 100, k at level 200, right associativity) : py_scope.
Local Open Scope py_scope.

(** [object.__new__(c)]: a new instance with an empty dictionary. *)
Definition alloc (c : cls.t) : M val :=
  fun w =>
    (Return (VRef (length (heap w))),
     World (heap w ++ [Instance c ∅]) (output w)).

(** [type(x).__name__]. *)
Definition type_name (x : val) : M string :=
  fun w =>
    match x with
    | VInt _ => (Return "int", w)
    | VFloat _ => (Return "float", w)
    | VNone => (Return "NoneType", w)
    | VRef l =>
        match heap w !! l with
        | Some o => (Return (cls.name (ob_type o)), w)
        | None => (Raise InvalidReference, w)
        end
    end.

(** [x.attr]: the instance dictionary is the only place where the classes
    of the module keep data attributes. *)
Definition getattr (x : val) (attr : string) : M val :=
  fun w =>
    match x with
    | VRef l =>
        match heap w !! l with
        | Some o =>
            match ob_dict o !! attr with
            | Some v => (Return v, w)
            | None => (Raise (AttributeError attr), w)
            end
        | None => (Raise InvalidReference, w)
        end
    | _ => (Raise (AttributeError attr), w)
    end.

(** [x.attr = v]. *)
Definition setattr (x : val) (attr : string) (v : val) : M unit :=
  fun w =>
    match x with
    | VRef l =>
        match heap w !! l with
        | Some o =>
            (Return tt,
             World (<[l := Instance (ob_type o) (<[attr := v]> (ob_dict o))]>
                      (heap w))
                   (output w))
        | None => (Raise InvalidReference, w)
        end
    | _ => (Raise (AttributeError attr), w)
    end.

(** The side effect of an observable strategy. *)
Definition emit (e : event) : M unit :=
  fun w => (Return tt, World (heap w) (output w ++ [e])).

(** ** The node classes *)

(** [UnaryOperator.__init__(self, operand)]. *)
Definition UnaryOperator___init__ (self : val) (args : list val) : M unit :=
  match args with
  | [operand] => setattr self "operand" operand
  | _ => raise (TypeError (BadArity "__init__" 1 (length args)))
  end.

(** [BinaryOperator.__init__(self, left, right)]. *)
Definition BinaryOperator___init__ (self : val) (args : list val) : M unit :=
  match args with
  | [l; r] =>
      setattr self "left" l ;;;
      setattr self "right" r
  | _ => raise (TypeError (BadArity "__init__" 2 (length args)))
  end.

(** [Number.__init__(self, value)]. *)
Definition Number___init__ (self : val) (args : list val) : M unit :=
  match args with
  | [value] => setattr self "value" value
  | _ => raise (TypeError (BadArity "__init__" 1 (length args)))
  end.

(** The [__init__] a class resolves to along its bases; [None] for [Node],
    which keeps the one of [object]. *)
Definition init_of (c : cls.t) : option (val -> list val -> M unit) :=
  match c with
  | cls.Node => None
  | cls.UnaryOperator | cls.Negate => Some UnaryOperator___init__
  | cls.BinaryOperator | cls.Add | cls.Sub | cls.Mul | cls.Div =>
      Some BinaryOperator___init__
  | cls.Number => Some Number___init__
  end.

(** The call of a class on positional arguments: create the instance, then initialise it.  A class
    that keeps [object.__init__] accepts no argument. *)
Definition construct (c : cls.t) (args : list val) : M val :=
  match init_of c with
  | None =>
      match args with
      | [] => alloc c
      | _ => raise (TypeError (BadArity (cls.name c) 0 (length args)))
      end
  | Some init =>
      let* self := alloc c in
      init self args ;;;
      ret self
  end.

(** ** The dispatcher *)

(** A bound method of a visitor: it receives [self.visit] and the node. *)
Definition method : Type := (val -> M val) -> val -> M val.

(** A visitor class is its table of methods; a subclass extends the table
    of its base and its own entries win. *)
Definition subclass (own base : gmap string method) : gmap string method :=
  own ∪ base.

(** [NodeVisitor.generic_visit]. *)
Definition generic_visit : method :=
  fun _ node =>
    let* tyname := type_name node in
    raise (RuntimeError ("No " +:+ ("visit_" +:+ tyname) +:+ " method")).

Definition NodeVisitor : gmap string method :=
  {[ "generic_visit" := generic_visit ]}.

(** [self.generic_visit]. *)
Definition self_generic_visit (self : gmap string method) : method :=
  match self !! "generic_visit" with
  | Some m => m
  | None => fun _ _ => raise (AttributeError "generic_visit")
  end.

(** [NodeVisitor.visit]; [depth] is the recursion budget left. *)
Fixpoint visit (depth : nat) (self : gmap string method) (node : val) : M val :=
  match depth with
  | O => raise RecursionError
  | S depth' =>
      let* tyname := type_name node in
      let methname := "visit_" +:+ tyname in
      let meth :=
        match self !! methname with
        | Some m => m
        | None => self_generic_visit self
        end in
      meth (visit depth' self) node
  end.

(** ** The evaluator *)

Definition visit_Number : method :=
  fun _ node =>
    let* value := getattr node "value" in
    lift (float_ value).

(** The shape of the four binary handlers:
    [self.visit(node.left) op self.visit(node.right)]. *)
Definition visit_binary (op : val -> val -> outcome val) : method :=
  fun self_visit node =>
    let* left := getattr node "left" in
    let* a := self_visit left in
    let* right := getattr node "right" in
    let* b := self_visit right in
    lift (op a b).

Definition visit_Add : method := visit_binary py_add.
Definition visit_Sub : method := visit_binary py_sub.
Definition visit_Mul : method := visit_binary py_mul.
Definition visit_Div : method := visit_binary py_truediv.

Definition visit_Negate : method :=
  fun _ node =>
    let* operand := getattr node "operand" in
    lift (py_neg operand).

Definition Evaluator : gmap string method :=
  subclass
    (<["visit_Number" := visit_Number]>
     (<["visit_Add" := visit_Add]>
     (<["visit_Sub" := visit_Sub]>
     (<["visit_Mul" := visit_Mul]>
     (<["visit_Div" := visit_Div]>
     (<["visit_Negate" := visit_Negate]> ∅))))))
    NodeVisitor.

(** A strategy with an observable effect per visit: every method of [base]
    is overridden by one that reports the node, runs the method of [base]
    (whose [self.visit] stays the one of the subclass) and reports its
    completion.  An exception skips the completion report. *)
Definition reporting (m : method) : method :=
  fun self_visit node =>
    emit (Enter node) ;;;
    let* r := m self_visit node in
    emit (Leave node) ;;;
    ret r.

Definition recording (base : gmap string method) : gmap string method :=
  reporting <$> base.

(** ** Trees

    What a caller writes to assemble a tree: literals and calls of the node
    classes on the right number of arguments.  The argument of a call can
    be any value, a literal as well as a node. *)
Inductive term :=
| PyInt (z : Z)
| PyFloat (f : float)
| PyNone
| Node
| UnaryOperator (operand : term)
| BinaryOperator (left right : term)
| Add (left right : term)
| Sub (left right : term)
| Mul (left right : term)
| Div (left right : term)
| Negate (operand : term)
| Number (value : term).

(** Evaluation of the expression [t] by the interpreter: arguments first,
    from left to right, then the call. *)
Fixpoint build (t : term) : M val :=
  match t with
  | PyInt z => ret (VInt z)
  | PyFloat f => ret (VFloat f)
  | PyNone => ret VNone
  | Node => construct cls.Node []
  | UnaryOperator o => let* vo := build o in construct cls.UnaryOperator [vo]
  | Negate o => let* vo := build o in construct cls.Negate [vo]
  | Number x => let* vx := build x in construct cls.Number [vx]
  | BinaryOperator a b =>
      let* va := build a in let* vb := build b in
      construct cls.BinaryOperator [va; vb]
  | Add a b =>
      let* va := build a in let* vb := build b in construct cls.Add [va; vb]
  | Sub a b =>
      let* va := build a in let* vb := build b in construct cls.Sub [va; vb]
  | Mul a b =>
      let* va := build a in let* vb := build b in construct cls.Mul [va; vb]
  | Div a b =>
      let* va := build a in let* vb := build b in construct cls.Div [va; vb]
  end.

(** The store holds at [v] an instance of [c] whose attribute [attr] is
    [x]. *)
Definition has_attr (h : list object) (v : val) (c : cls.t)
    (attr : string) (x : val) : Prop :=
  exists l o,
    v = VRef l /\ h !! l = Some o /\ ob_type o = c /\ ob_dict o !! attr = Some x.

Definition is_instance (h : list object) (v : val) (c : cls.t) : Prop :=
  exists l o, v = VRef l /\ h !! l = Some o /\ ob_type o = c.

Definition is_unary (h : list object) (v : val) (c : cls.t) (x : val) : Prop :=
  has_attr h v c "operand" x.

Definition is_binary (h : list object) (v : val) (c : cls.t) (x y : val) : Prop :=
  has_attr h v c "left" x /\ has_attr h v c "right" y.

(** The value [v] unfolds, in the store [h], to the tree [t]. *)
Fixpoint repr (h : list object) (v : val) (t : term) : Prop :=
  match t with
  | PyInt z => v = VInt z
  | PyFloat f => v = VFloat f
  | PyNone => v = VNone
  | Node => is_instance h v cls.Node
  | UnaryOperator o =>
      exists x, is_unary h v cls.UnaryOperator x /\ repr h x o
  | Negate o => exists x, is_unary h v cls.Negate x /\ repr h x o
  | Number o => exists x, has_attr h v cls.Number "value" x /\ repr h x o
  | BinaryOperator a b =>
      exists x y, is_binary h v cls.BinaryOperator x y /\ repr h x a /\ repr h y b
  | Add a b => exists x y, is_binary h v cls.Add x y /\ repr h x a /\ repr h y b
  | Sub a b => exists x y, is_binary h v cls.Sub x y /\ repr h x a /\ repr h y b
  | Mul a b => exists x y, is_binary h v cls.Mul x y /\ repr h x a /\ repr h y b
  | Div a b => exists x y, is_binary h v cls.Div x y /\ repr h x a /\ repr h y b
  end.

(** The nesting of [visit] calls a traversal of [t] needs: the handlers of
    [Number] and [Negate] do not descend. *)
Fixpoint height (t : term) : nat :=
  match t with
  | Add a b | Sub a b | Mul a b | Div a b => S (Nat.max (height a) (height b))
  | _ => 1
  end.

(** The tree of the module: [1 + 2 * (3 - 4) / 5]. *)
Definition t1 : term := Sub (Number (PyInt 3)) (Number (PyInt 4)).
Definition t2 : term := Mul (Number (PyInt 2)) t1.
Definition t3 : term := Div t2 (Number (PyInt 5)).
Definition t4 : term := Add (Number (PyInt 1)) t3.

Definition empty_world : world := World [] [].

(** Assemble [t] in the world [w], then visit it. *)
Definition run (depth : nat) (self : gmap string method) (t : term)
    : M val :=
  let* root := build t in visit depth self root.

(** ** What [Evaluator] computes on a tree

    The literal a term stands for, when it is one. *)
Definition scalar (t : term) : option val :=
  match t with
  | PyInt z => Some (VInt z)
  | PyFloat f => Some (VFloat f)
  | PyNone => Some VNone
  | _ => None
  end.

(** A builtin applied to an attribute that holds the tree [t]: an instance
    is refused with the [TypeError] of the builtin. *)
Definition on_attribute (f : val -> outcome val) (why : type_error)
    (t : term) : outcome val :=
  match scalar t with
  | Some v => f v
  | None => Raise (TypeError why)
  end.

Definition unhandled (tyname : string) : exn :=
  RuntimeError ("No " +:+ ("visit_" +:+ tyname) +:+ " method").

(** The name of the type of the value a term builds. *)
Definition term_type_name (t : term) : string :=
  match t with
  | PyInt _ => "int"
  | PyFloat _ => "float"
  | PyNone => "NoneType"
  | Node => "Node"
  | UnaryOperator _ => "UnaryOperator"
  | BinaryOperator _ _ => "BinaryOperator"
  | Add _ _ => "Add"
  | Sub _ _ => "Sub"
  | Mul _ _ => "Mul"
  | Div _ _ => "Div"
  | Negate _ => "Negate"
  | Number _ => "Number"
  end.

(** The outcome of [Evaluator().visit] on a tree, read off the tree alone;
    [visit_Evaluator_tree] below proves that [visit] computes it. *)
Fixpoint tree_eval (t : term) : outcome val :=
  match t with
  | Number x => on_attribute float_ BadFloatArgument x
  | Negate x => on_attribute py_neg BadUnaryOperand x
  | Add a b =>
      outcome_bind (tree_eval a) (fun x =>
      outcome_bind (tree_eval b) (fun y => py_add x y))
  | Sub a b =>
      outcome_bind (tree_eval a) (fun x =>
      outcome_bind (tree_eval b) (fun y => py_sub x y))
  | Mul a b =>
      outcome_bind (tree_eval a) (fun x =>
      outcome_bind (tree_eval b) (fun y => py_mul x y))
  | Div a b =>
      outcome_bind (tree_eval a) (fun x =>
      outcome_bind (tree_eval b) (fun y => py_truediv x y))
  | _ => Raise (unhandled (term_type_name t))
  end.

Definition completes (t : term) : bool :=
  match tree_eval t with
  | Return _ => true
  | Raise _ => false
  end.

(** The events a recording evaluator emits on a tree, in order: a node is
    entered, its left subtree is walked, then its right subtree if the left
    one completed, and the node is left if its own handler completed. *)
Inductive tree_event :=
| Entered (t : term)
| Left (t : term).

Fixpoint walk (t : term) : list tree_event :=
  Entered t ::
  match t with
  | Add a b | Sub a b | Mul a b | Div a b =>
      walk a ++ (if completes a then walk b else [])
  | _ => []
  end ++ (if completes t then [Left t] else []).

(** The event [e] of the store [h] is about the tree [te]. *)
Definition shows (h : list object) (e : event) (te : tree_event) : Prop :=
  match e, te with
  | Enter v, Entered t => repr h v t
  | Leave v, Left t => repr h v t
  | _, _ => False
  end.

(** ** The interpretation of the specification

    Arithmetic trees: [Number] over a numeric literal and the four binary
    operators. *)
Inductive number :=
| Int (z : Z)
| Float (f : float).

Inductive arith :=
| ANumber (v : number)
| AAdd (l r : arith)
| ASub (l r : arith)
| AMul (l r : arith)
| ADiv (l r : arith).

Fixpoint arith_term (a : arith) : term :=
  match a with
  | ANumber (Int z) => Number (PyInt z)
  | ANumber (Float f) => Number (PyFloat f)
  | AAdd l r => Add (arith_term l) (arith_term r)
  | ASub l r => Sub (arith_term l) (arith_term r)
  | AMul l r => Mul (arith_term l) (arith_term r)
  | ADiv l r => Div (arith_term l) (arith_term r)
  end.

(** The arithmetic interpretation in floating point, as the specification
    words it: a number is widened to a float, [Add(l, r)] is [l + r],
    [Sub(l, r)] is [l - r], [Mul(l, r)] is [l * r], [Div(l, r)] is [l / r];
    a failure of the numeric model (a literal beyond the floats, a zero
    divisor) is the interpretation of the tree that meets it first. *)
Fixpoint denote (a : arith) : outcome float :=
  match a with
  | ANumber (Int z) => int_to_float z
  | ANumber (Float f) => Return f
  | AAdd l r =>
      outcome_bind (denote l) (fun x =>
      outcome_bind (denote r) (fun y => Return (x + y)%float))
  | ASub l r =>
      outcome_bind (denote l) (fun x =>
      outcome_bind (denote r) (fun y => Return (x - y)%float))
  | AMul l r =>
      outcome_bind (denote l) (fun x =>
      outcome_bind (denote r) (fun y => Return (x * y)%float))
  | ADiv l r =>
      outcome_bind (denote l) (fun x =>
      outcome_bind (denote r) (fun y => float_divide x y))
  end.

(** The errors of the specification, as the exceptions of the module. *)
Definition UnhandledVariant (tag : string) (e : exn) : Prop :=
  e = RuntimeError ("No visit_" +:+ tag +:+ " method").

Definition MalformedTree (e : exn) : Prop :=
  exists callee expected given, e = TypeError (BadArity callee expected given).

Definition ArithmeticFailure (e : exn) : Prop :=
  e = ZeroDivisionError \/ e = OverflowError.

(** The number of positional arguments the call of a class takes. *)
Definition arity (c : cls.t) : nat :=
  match c with
  | cls.Node => 0
  | cls.UnaryOperator | cls.Negate | cls.Number => 1
  | cls.BinaryOperator | cls.Add | cls.Sub | cls.Mul | cls.Div => 2
  end.

(** The attributes [__init__] sets, in the order of its parameters. *)
Definition init_attrs (c : cls.t) : list string :=
  match c with
  | cls.Node => []
  | cls.UnaryOperator | cls.Negate => ["operand"]
  | cls.Number => ["value"]
  | cls.BinaryOperator | cls.Add | cls.Sub | cls.Mul | cls.Div =>
      ["left"; "right"]
  end.

(** ** Binary nodes of the evaluator *)

(** The method [visit] selects for a value that unfolds to [t]. *)
Definition Evaluator_handler_of (t : term) : method :=
  match t with
  | Add _ _ => visit_Add
  | Sub _ _ => visit_Sub
  | Mul _ _ => visit_Mul
  | Div _ _ => visit_Div
  | Negate _ => visit_Negate
  | Number _ => visit_Number
  | _ => generic_visit
  end.

(** The children the evaluator descends into. *)
Definition operands (t : term) : option (term * term) :=
  match t with
  | Add a b | Sub a b | Mul a b | Div a b => Some (a, b)
  | _ => None
  end.

(** The operator the handler of a binary node applies. *)
Definition operator (t : term) : val -> val -> outcome val :=
  match t with
  | Add _ _ => py_add
  | Sub _ _ => py_sub
  | Mul _ _ => py_mul
  | _ => py_truediv
  end.

(** The same, from the class of the node. *)
Definition operator_of (c : cls.t) : val -> val -> outcome val :=
  match c with
  | cls.Add => py_add
  | cls.Sub => py_sub
  | cls.Mul => py_mul
  | _ => py_truediv
  end.

(** The classes that have a binary handler. *)
Definition binary_operator (c : cls.t) : bool :=
  match c with
  | cls.Add | cls.Sub | cls.Mul | cls.Div => true
  | _ => false
  end.

(** The operators of the four binary handlers. *)
Definition Evaluator_operator (op : val -> val -> outcome val) : Prop :=
  op = py_add \/ op = py_sub \/ op = py_mul \/ op = py_truediv.

(** The nodes whose handler completed, in the order of completion. *)
Definition completions (evs : list tree_event) : list term :=
  omap (fun ev => match ev with Left t => Some t | Entered _ => None end) evs.

(** What the visit [k] of a value that unfolds to [t] does, from any world
    [w'] over the store [h]: it ends with the outcome [tree_eval t], leaves
    the store alone and appends events that show the walk of [t]. *)
Definition walks (h : list object) (k : val -> M val) (t : term) : Prop :=
  forall x w',
    heap w' = h ->
    repr h x t ->
    exists evs,
      k x w' = (tree_eval t, World h (output w' ++ evs)) /\
      Forall2 (shows h) evs (walk t).

(** ** The trees of the data model *)

(** [Number] over a numeric literal, [Negate] over a node, a binary
    operator over two nodes. *)
Fixpoint well_formed (t : term) : bool :=
  match t with
  | Number (PyInt _) | Number (PyFloat _) => true
  | Negate o => well_formed o
  | Add a b | Sub a b | Mul a b | Div a b => well_formed a && well_formed b
  | _ => false
  end.

(** A [Negate] is met on the way down the binary nodes. *)
Fixpoint has_Negate (t : term) : bool :=
  match t with
  | Negate _ => true
  | Add a b | Sub a b | Mul a b | Div a b => has_Negate a || has_Negate b
  | _ => false
  end.

(** ** Strategies that only observe the store

    A computation observes the store when it ends over the store it
    started from and its outcome depends on nothing but that store (the
    channel of events may grow and is never read). *)
Definition observes {A} (c : M A) : Prop :=
  forall w,
    heap (c w).2 = heap w /\
    forall w', heap w' = heap w -> (c w').1 = (c w).1.

Definition observer (k : val -> M val) : Prop := forall v, observes (k v).

(** A method observes the store as soon as its [self.visit] does. *)
Definition method_observer (m : method) : Prop :=
  forall k, observer k -> observer (m k).

Definition strategy_observer (self : gmap string method) : Prop :=
  forall n m, self !! n = Some m -> method_observer m.

(** A computation is silent when it changes nothing at all, the channel of
    events included. *)
Definition silent {A} (c : M A) : Prop := forall w, (c w).2 = w.

Definition method_silent (m : method) : Prop :=
  forall k, (forall v, silent (k v)) -> forall v, silent (m k v).

Definition strategy_silent (self : gmap string method) : Prop :=
  forall n m, self !! n = Some m -> method_silent m.

(** A computation is arity-safe when it never raises the error of a call on
    a wrong number of arguments. *)
Definition arity_safe {A} (c : M A) : Prop :=
  forall w e, (c w).1 = Raise e -> ~ MalformedTree e.

Definition method_arity_safe (m : method) : Prop :=
  forall k, (forall v, arity_safe (k v)) -> forall v, arity_safe (m k v).

Definition strategy_arity_safe (self : gmap string method) : Prop :=
  forall n m, self !! n = Some m -> method_arity_safe m.

(** The strategies of the module and their recording subclasses. *)
Inductive source_strategy : gmap string method -> Prop :=
| source_NodeVisitor : source_strategy NodeVisitor
| source_Evaluator : source_strategy Evaluator
| source_recording base :
    source_strategy base -> source_strategy (recording base).

(** A strategy that has every handler of [Evaluator] but the one of
    [Negate]. *)
Definition Evaluator_without_Negate : gmap string method :=
  delete "visit_Negate" Evaluator.

(** [n] calls of [visit] in a row, each outcome being observed by the
    caller, an exception as well as a result. *)
Fixpoint dispatch_times (n : nat) (depth : nat) (self : gmap string method)
    (v : val) (w : world) : list (outcome val) * world :=
  match n with
  | O => ([], w)
  | S n' =>
      let (r, w1) := visit depth self v w in
      let (rs, w2) := dispatch_times n' depth self v w1 in
      (r :: rs, w2)
  end.

(** ** Construction *)

(** The dictionary [__init__] leaves in the new instance. *)
Definition stored (c : cls.t) (args : list val) : gmap string val :=
  foldl (fun d av => <[av.1 := av.2]> d) ∅ (zip (init_attrs c) args).

(** The name under which a wrong number of arguments is reported. *)
Definition callee (c : cls.t) : string :=
  match init_of c with
  | None => cls.name c
  | Some _ => "__init__"
  end.

(** The assembly of [t] in [w] succeeds: it returns [v], which unfolds to
    [t] in the store of [w'], a store that extends the one of [w]; nothing
    is emitted. *)
Definition assembled (t : term) (w : world) (v : val) (w' : world) : Prop :=
  build t w = (Return v, w') /\
  repr (heap w') v t /\
  heap w `prefix_of` heap w' /\
  output w' = output w.

(** ** Deciding that a value unfolds to a tree *)

Definition val_eqb (x y : val) : bool :=
  match x, y with
  | VInt a, VInt b => a =? b
  | VFloat a, VFloat b => PrimFloat.Leibniz.eqb a b
  | VNone, VNone => true
  | VRef a, VRef b => Nat.eqb a b
  | _, _ => false
  end.

Definition cls_eqb (c d : cls.t) : bool :=
  String.eqb (cls.name c) (cls.name d).

Definition instance_of (h : list object) (v : val) (c : cls.t) : bool :=
  match v with
  | VRef l =>
      match h !! l with
      | Some o => cls_eqb (ob_type o) c
      | None => false
      end
  | _ => false
  end.

Definition attr_of (h : list object) (v : val) (c : cls.t) (attr : string)
    : option val :=
  match v with
  | VRef l =>
      match h !! l with
      | Some o => if cls_eqb (ob_type o) c then ob_dict o !! attr else None
      | None => None
      end
  | _ => None
  end.

Definition unary_of (h : list object) (v : val) (c : cls.t) (attr : string)
    (k : val -> bool) : bool :=
  match attr_of h v c attr with
  | Some x => k x
  | None => false
  end.

Definition binary_of (h : list object) (v : val) (c : cls.t)
    (k1 k2 : val -> bool) : bool :=
  match attr_of h v c "left", attr_of h v c "right" with
  | Some x, Some y => k1 x && k2 y
  | _, _ => false
  end.

(** The executable counterpart of [repr]. *)
Fixpoint represents (h : list object) (t : term) (v : val) : bool :=
  match t with
  | PyInt z => val_eqb v (VInt z)
  | PyFloat f => val_eqb v (VFloat f)
  | PyNone => val_eqb v VNone
  | Node => instance_of h v cls.Node
  | UnaryOperator o =>
      unary_of h v cls.UnaryOperator "operand" (represents h o)
  | Negate o => unary_of h v cls.Negate "operand" (represents h o)
  | Number o => unary_of h v cls.Number "value" (represents h o)
  | BinaryOperator a b =>
      binary_of h v cls.BinaryOperator (represents h a) (represents h b)
  | Add a b => binary_of h v cls.Add (represents h a) (represents h b)
  | Sub a b => binary_of h v cls.Sub (represents h a) (represents h b)
  | Mul a b => binary_of h v cls.Mul (represents h a) (represents h b)
  | Div a b => binary_of h v cls.Div (represents h a) (represents h b)
  end.

(** ** Trees and worlds of the examples

    Each world is the one the assembly of the tree leaves, from the empty
    world; the instances are numbered in the order of their creation. *)

(** [t4] as an arithmetic tree, and assembled. *)
Definition a4 : arith :=
  AAdd (ANumber (Int 1))
       (ADiv (AMul (ANumber (Int 2)) (ASub (ANumber (Int 3)) (ANumber (Int 4))))
             (ANumber (Int 5))).
Definition w4 : world := Eval vm_compute in (build t4 empty_world).2.

(** [Negate(5)]: the operand is a raw integer. *)
Definition negate_5 : term := Negate (PyInt 5).
Definition w_negate_5 : world :=
  Eval vm_compute in (build negate_5 empty_world).2.

(** [Negate(Number(1))]: the operand is a node. *)
Definition negate_number : term := Negate (Number (PyInt 1)).
Definition w_negate_number : world :=
  Eval vm_compute in (build negate_number empty_world).2.

(** [Div(Number(1), Number(0))]. *)
Definition one_over_zero : term := Div (Number (PyInt 1)) (Number (PyInt 0)).
Definition w_one_over_zero : world :=
  Eval vm_compute in (build one_over_zero empty_world).2.

(** [Add(Negate(Number(1)), Number(2))]. *)
Definition negate_then_number : term :=
  Add (Negate (Number (PyInt 1))) (Number (PyInt 2)).
Definition w_negate_then_number : world :=
  Eval vm_compute in (build negate_then_number empty_world).2.

(** [Add(Div(Number(1), Number(0)), Number(2))]: the left child fails. *)
Definition failing_left : term :=
  Add (Div (Number (PyInt 1)) (Number (PyInt 0))) (Number (PyInt 2)).
Definition w_failing_left : world :=
  Eval vm_compute in (build failing_left empty_world).2.

(** [Add(Number(1), Mul(Number(2), Number(3)))]. *)
Definition ordered : term :=
  Add (Number (PyInt 1)) (Mul (Number (PyInt 2)) (Number (PyInt 3))).
Definition w_ordered : world :=
  Eval vm_compute in (build ordered empty_world).2.

(** ** Values and classes the evaluator handles *)


(** The classes [Evaluator] has a method for. *)
Definition handled (c : cls.t) : bool :=
  match c with
  | cls.Add | cls.Sub | cls.Mul | cls.Div | cls.Negate | cls.Number => true
  | cls.Node | cls.UnaryOperator | cls.BinaryOperator => false
  end.

(** The method of [Evaluator] for an instance of [c]. *)
Definition Evaluator_method_of (c : cls.t) : method :=
  match c with
  | cls.Add => visit_Add
  | cls.Sub => visit_Sub
  | cls.Mul => visit_Mul
  | cls.Div => visit_Div
  | cls.Negate => visit_Negate
  | cls.Number => visit_Number
  | cls.Node | cls.UnaryOperator | cls.BinaryOperator => generic_visit
  end.

(** [type(x).__name__] of a value that is not an instance. *)
Definition builtin_type_name (x : val) : string :=
  match x with
  | VInt _ => "int"
  | VFloat _ => "float"
  | _ => "NoneType"
  end.


(** The trees of [Number], [Add], [Sub] and [Mul] whose integer literals
    have a float. *)
Fixpoint total_tree (t : term) : bool :=
  match t with
  | Add a b | Sub a b | Mul a b => total_tree a && total_tree b
  | Number (PyInt z) =>
      match int_to_float z with Return _ => true | Raise _ => false end
  | Number (PyFloat _) => true
  | _ => false
  end.

(** A subclass of [Evaluator] with a handler for [UnaryOperator] and a
    default handler of its own, both returning [None]. *)
Definition Lenient : gmap string method :=
  subclass
    (<["visit_UnaryOperator" := fun _ _ => ret VNone]>
     (<["generic_visit" := fun _ _ => ret VNone]> ∅))
    Evaluator.

Definition add_raw : term := Add (PyInt 1) (Number (PyInt 2)).
Definition w_add_raw : world :=
  Eval vm_compute in (build add_raw empty_world).2.

(** ** Stores made by the constructors *)

(** The class of the instance a value refers to. *)
Definition class_of_value (h : list object) (v : val) : option cls.t :=
  match v with
  | VRef l => ob_type <$> h !! l
  | _ => None
  end.

(** The class of the instance a term builds; [None] for a literal. *)
Definition term_class (t : term) : option cls.t :=
  match t with
  | PyInt _ | PyFloat _ | PyNone => None
  | Node => Some cls.Node
  | UnaryOperator _ => Some cls.UnaryOperator
  | BinaryOperator _ _ => Some cls.BinaryOperator
  | Add _ _ => Some cls.Add
  | Sub _ _ => Some cls.Sub
  | Mul _ _ => Some cls.Mul
  | Div _ _ => Some cls.Div
  | Negate _ => Some cls.Negate
  | Number _ => Some cls.Number
  end.

(** A value is valid in a store when it does not dangle. *)
Definition valid (h : list object) (v : val) : Prop :=
  match v with
  | VRef l => (l < length h)%nat
  | _ => True
  end.

(** An instance is initialised when it carries every attribute the
    [__init__] of its class sets, each holding a valid value. *)
Definition initialised (h : list object) (o : object) : Prop :=
  forall attr,
    attr ∈ init_attrs (ob_type o) ->
    exists x, ob_dict o !! attr = Some x /\ valid h x.

Definition well_formed_store (h : list object) : Prop :=
  forall l o, h !! l = Some o -> initialised h o.

(** No reference error: neither a missing attribute nor a dangling
    reference. *)
Definition reference_error (e : exn) : Prop :=
  e = InvalidReference \/ exists attr, e = AttributeError attr.

(** The executable counterparts of [valid] and [well_formed_store]. *)
Definition valid_in (n : nat) (v : val) : bool :=
  match v with
  | VRef l => (l <? n)%nat
  | _ => true
  end.

Definition initialised_in (n : nat) (o : object) : bool :=
  forallb
    (fun attr =>
       match ob_dict o !! attr with
       | Some x => valid_in n x
       | None => false
       end)
    (init_attrs (ob_type o)).

Definition check_store (h : list object) : bool :=
  forallb (initialised_in (length h)) h.

(** The world in which [Negate(5)] was built after the tree of the
    module. *)
Definition w4_then_negate : world :=
  Eval vm_compute in (build negate_5 w4).2.

(** ** Chains of left children *)

(** The instances at the locations of [P] are binary nodes of the
    evaluator whose left child is again at a location of [P]. *)
Definition left_closed (h : list object) (P : loc -> Prop) : Prop :=
  forall l, P l ->
    exists o l',
      h !! l = Some o /\ binary_operator (ob_type o) = true /\
      ob_dict o !! "left" = Some (VRef l') /\ P l'.

(** [t = Add(1, 2); t.left = t]. *)
Definition w_own_left : world :=
  Eval vm_compute in
    ((let* t := construct cls.Add [VInt 1; VInt 2] in
      setattr t "left" t) empty_world).2.

(** * Properties *)

(** ** The numeric builtins on a few inputs *)

Example int_to_float_3 : int_to_float 3 = Return 3%float.
Proof. vm_compute. reflexivity. Qed.
Example int_to_float_tie : int_to_float (2 ^ 53 + 1) = int_to_float (2 ^ 53).
Proof. vm_compute. reflexivity. Qed.
Example int_to_float_huge : int_to_float (10 ^ 400) = Raise OverflowError.
Proof. vm_compute. reflexivity. Qed.
Example int_true_divide_third : int_true_divide 1 3 = Return (1 / 3)%float.
Proof. vm_compute. reflexivity. Qed.
Example int_true_divide_neg : int_true_divide (-5) 2 = Return (-2.5)%float.
Proof. vm_compute. reflexivity. Qed.
Example int_true_divide_zero : int_true_divide 7 0 = Raise ZeroDivisionError.
Proof. reflexivity. Qed.
Example int_true_divide_big :
  int_true_divide (10 ^ 400) (10 ^ 399) = Return 10%float.
Proof. vm_compute. reflexivity. Qed.
Example float_divide_zero : float_divide 1 (-0)%float = Raise ZeroDivisionError.
Proof. reflexivity. Qed.
Example int_true_divide_signed_zero :
  int_true_divide 0 (-5) = Return (-0)%float.
Proof. vm_compute. reflexivity. Qed.

(** ** Reading the store *)

Lemma visit_S depth self node :
  visit (S depth) self node =
  (let* tyname := type_name node in
   match self !! ("visit_" +:+ tyname) with
   | Some m => m
   | None => self_generic_visit self
   end (visit depth self) node).
Proof. reflexivity. Qed.

Lemma has_attr_instance h v c attr x :
  has_attr h v c attr x -> is_instance h v c.
Proof. intros (l & o & -> & Hl & Hc & _). by exists l, o. Qed.

Lemma is_binary_instance h v c x y : is_binary h v c x y -> is_instance h v c.
Proof. intros [H _]. by eapply has_attr_instance. Qed.

Lemma type_name_instance w v c :
  is_instance (heap w) v c -> type_name v w = (Return (cls.name c), w).
Proof. intros (l & o & -> & Hl & <-). unfold type_name. by rewrite Hl. Qed.

Lemma getattr_has_attr w v c attr x :
  has_attr (heap w) v c attr x -> getattr v attr w = (Return x, w).
Proof.
  intros (l & o & -> & Hl & _ & Hx). unfold getattr. by rewrite Hl, Hx.
Qed.

(** Reading never writes. *)
Lemma type_name_world x w : (type_name x w).2 = w.
Proof. destruct x; simpl; try done. by destruct (heap w !! l). Qed.

Lemma getattr_world x attr w : (getattr x attr w).2 = w.
Proof.
  destruct x; simpl; try done.
  destruct (heap w !! l) as [o|]; [|done]. by destruct (ob_dict o !! attr).
Qed.

(** The type name of a value that unfolds to [t]. *)
Lemma type_name_repr w v t :
  repr (heap w) v t -> type_name v w = (Return (term_type_name t), w).
Proof.
  destruct t; simpl.
  1-3: by intros ->.
  - apply (type_name_instance w v cls.Node).
  - intros (x & H & _). eapply (type_name_instance w v cls.UnaryOperator).
    by eapply has_attr_instance.
  - intros (x & y & H & _).
    by eapply (type_name_instance w v cls.BinaryOperator), is_binary_instance.
  - intros (x & y & H & _).
    by eapply (type_name_instance w v cls.Add), is_binary_instance.
  - intros (x & y & H & _).
    by eapply (type_name_instance w v cls.Sub), is_binary_instance.
  - intros (x & y & H & _).
    by eapply (type_name_instance w v cls.Mul), is_binary_instance.
  - intros (x & y & H & _).
    by eapply (type_name_instance w v cls.Div), is_binary_instance.
  - intros (x & H & _). eapply (type_name_instance w v cls.Negate).
    by eapply has_attr_instance.
  - intros (x & H & _). eapply (type_name_instance w v cls.Number).
    by eapply has_attr_instance.
Qed.

(** A value that unfolds to a literal is that literal; one that unfolds to
    a node is a reference. *)
Lemma repr_scalar h v t x : repr h v t -> scalar t = Some x -> v = x.
Proof. destruct t; simpl; intros H [= <-]; done. Qed.

Lemma repr_reference h v t : repr h v t -> scalar t = None -> exists l, v = VRef l.
Proof.
  destruct t; simpl; try done; intros H _.
  - destruct H as (l & o & -> & _); eauto.
  - destruct H as (x & (l & o & -> & _) & _); eauto.
  - destruct H as (x & y & [(l & o & -> & _) _] & _); eauto.
  - destruct H as (x & y & [(l & o & -> & _) _] & _); eauto.
  - destruct H as (x & y & [(l & o & -> & _) _] & _); eauto.
  - destruct H as (x & y & [(l & o & -> & _) _] & _); eauto.
  - destruct H as (x & y & [(l & o & -> & _) _] & _); eauto.
  - destruct H as (x & (l & o & -> & _) & _); eauto.
  - destruct H as (x & (l & o & -> & _) & _); eauto.
Qed.

Lemma float__repr h v t :
  repr h v t -> float_ v = on_attribute float_ BadFloatArgument t.
Proof.
  intros H. unfold on_attribute. destruct (scalar t) as [x|] eqn:Hs.
  - by rewrite (repr_scalar _ _ _ _ H Hs).
  - by destruct (repr_reference _ _ _ H Hs) as [l ->].
Qed.

Lemma py_neg_repr h v t :
  repr h v t -> py_neg v = on_attribute py_neg BadUnaryOperand t.
Proof.
  intros H. unfold on_attribute. destruct (scalar t) as [x|] eqn:Hs.
  - by rewrite (repr_scalar _ _ _ _ H Hs).
  - by destruct (repr_reference _ _ _ H Hs) as [l ->].
Qed.

(** ** The tables of methods *)

Lemma Evaluator_dispatch t :
  match Evaluator !! ("visit_" +:+ term_type_name t) with
  | Some m => m
  | None => self_generic_visit Evaluator
  end = Evaluator_handler_of t.
Proof. destruct t; reflexivity. Qed.

Lemma recording_Evaluator_dispatch t :
  match recording Evaluator !! ("visit_" +:+ term_type_name t) with
  | Some m => m
  | None => self_generic_visit (recording Evaluator)
  end = reporting (Evaluator_handler_of t).
Proof. destruct t; reflexivity. Qed.

(** ** The handlers, one call at a time *)

Lemma generic_visit_run k w v n :
  type_name v w = (Return n, w) ->
  generic_visit k v w = (Raise (unhandled n), w).
Proof. intros H. unfold generic_visit, bind. by rewrite H. Qed.

Lemma visit_Number_run k w node x :
  has_attr (heap w) node cls.Number "value" x ->
  visit_Number k node w = (float_ x, w).
Proof.
  intros H. unfold visit_Number, bind. by rewrite (getattr_has_attr _ _ _ _ _ H).
Qed.

Lemma visit_Negate_run k w node x :
  is_unary (heap w) node cls.Negate x ->
  visit_Negate k node w = (py_neg x, w).
Proof.
  intros H. unfold visit_Negate, bind. by rewrite (getattr_has_attr _ _ _ _ _ H).
Qed.

(** A binary handler visits the left child, then, from the world the left
    visit ended in, the right child, and combines the two results; the
    first exception ends it. *)
Lemma visit_binary_run op (k : val -> M val) w node c x y oa w1 :
  is_binary (heap w) node c x y ->
  k x w = (oa, w1) ->
  heap w1 = heap w ->
  visit_binary op k node w =
  match oa with
  | Raise e => (Raise e, w1)
  | Return a =>
      match k y w1 with
      | (Return b, w2) => (op a b, w2)
      | (Raise e, w2) => (Raise e, w2)
      end
  end.
Proof.
  intros [Hl Hr] Hk Hh. unfold visit_binary, bind.
  rewrite (getattr_has_attr _ _ _ _ _ Hl), Hk.
  destruct oa as [a|e]; [|done].
  rewrite <- Hh in Hr. rewrite (getattr_has_attr _ _ _ _ _ Hr).
  by destruct (k y w1) as [[b|e] w2].
Qed.

Lemma reporting_run (m : method) k node w :
  reporting m k node w =
  match m k node (World (heap w) (output w ++ [Enter node])) with
  | (Return r, w') => (Return r, World (heap w') (output w' ++ [Leave node]))
  | (Raise e, w') => (Raise e, w')
  end.
Proof.
  unfold reporting, bind, emit, ret.
  by destruct (m k node _) as [[r|e] w'].
Qed.

(** ** [Evaluator] on a tree *)

Lemma operands_handler t a b :
  operands t = Some (a, b) -> Evaluator_handler_of t = visit_binary (operator t).
Proof. by destruct t. Qed.

Lemma operands_tree_eval t a b :
  operands t = Some (a, b) ->
  tree_eval t =
  outcome_bind (tree_eval a) (fun x =>
  outcome_bind (tree_eval b) (fun y => operator t x y)).
Proof. destruct t; simpl; intros [= <- <-]; done. Qed.

Lemma operands_repr h v t a b :
  operands t = Some (a, b) ->
  repr h v t ->
  exists c x y, is_binary h v c x y /\ repr h x a /\ repr h y b.
Proof. destruct t; simpl; intros [= <- <-] (x & y & H); eauto. Qed.

Lemma operands_walk t a b :
  operands t = Some (a, b) ->
  walk t =
  Entered t :: (walk a ++ (if completes a then walk b else []))
    ++ (if completes t then [Left t] else []).
Proof. destruct t; simpl; intros [= <- <-]; done. Qed.

Lemma no_operands_walk t :
  operands t = None ->
  walk t = Entered t :: (if completes t then [Left t] else []).
Proof. by destruct t. Qed.

(** A handler that does not descend: it reads the node and returns. *)
Lemma leaf_handler_run k w v t :
  operands t = None ->
  repr (heap w) v t ->
  Evaluator_handler_of t k v w = (tree_eval t, w).
Proof.
  intros Ho Hr. destruct t; try done; simpl Evaluator_handler_of.
  1-6: by apply generic_visit_run, type_name_repr.
  - destruct Hr as (x & H & Hx). rewrite (visit_Negate_run _ _ _ _ H).
    simpl. by rewrite (py_neg_repr _ _ _ Hx).
  - destruct Hr as (x & H & Hx). rewrite (visit_Number_run _ _ _ _ H).
    simpl. by rewrite (float__repr _ _ _ Hx).
Qed.

(** [Evaluator().visit] on a value that unfolds to [t] ends with the
    outcome [tree_eval t], in the world it started from, as soon as the
    recursion budget covers the height of [t]. *)
Lemma visit_Evaluator_tree t :
  forall depth v w,
    repr (heap w) v t ->
    (height t <= depth)%nat ->
    visit depth Evaluator v w = (tree_eval t, w).
Proof.
  induction t as [z|f| | |o IHo|a IHa b IHb|a IHa b IHb|a IHa b IHb
                 |a IHa b IHb|a IHa b IHb|o IHo|o IHo];
    intros depth v w Hr Hd;
    (destruct depth as [|depth]; [simpl in Hd; lia|]);
    rewrite visit_S; unfold bind at 1;
    rewrite (type_name_repr _ _ _ Hr), Evaluator_dispatch.
  1-6,11,12: by apply leaf_handler_run.
  all: destruct Hr as (x & y & Hb & Hx & Hy); simpl in Hd;
    simpl Evaluator_handler_of;
    unfold visit_Add, visit_Sub, visit_Mul, visit_Div;
    (erewrite visit_binary_run;
      [|exact Hb|apply IHa; [exact Hx|lia]|reflexivity]);
    simpl; destruct (tree_eval a) as [va|e]; [|done];
    rewrite (IHb depth y w Hy) by lia;
    simpl; by destruct (tree_eval b).
Qed.

(** ** The recording evaluator on a tree *)

Lemma recording_leaf_step t k h :
  operands t = None ->
  walks h (reporting (Evaluator_handler_of t) k) t.
Proof.
  intros Ho v w <- Hr. rewrite reporting_run.
  rewrite leaf_handler_run by done.
  rewrite no_operands_walk by done. unfold completes.
  destruct (tree_eval t) as [r|e].
  - exists [Enter v; Leave v]. split.
    + simpl. by rewrite <- (assoc_L (++)).
    + by repeat constructor.
  - exists [Enter v]. split; [done|]. by repeat constructor.
Qed.

Lemma recording_binary_step t a b k h :
  operands t = Some (a, b) ->
  walks h k a ->
  walks h k b ->
  walks h (reporting (Evaluator_handler_of t) k) t.
Proof.
  intros Ho Ha Hb v w <- Hr. rewrite reporting_run.
  rewrite (operands_handler _ _ _ Ho), (operands_walk _ _ _ Ho).
  destruct (operands_repr _ _ _ _ _ Ho Hr) as (c & x & y & Hbin & Hx & Hy).
  set (w0 := World (heap w) (output w ++ [Enter v])).
  destruct (Ha x w0 eq_refl Hx) as (evsa & Hka & Hwa).
  rewrite (visit_binary_run _ k w0 v c x y _ _ Hbin Hka eq_refl).
  unfold completes at 2. rewrite (operands_tree_eval _ _ _ Ho).
  unfold completes at 1.
  destruct (tree_eval a) as [ra|e].
  - destruct (Hb y (World (heap w) (output w0 ++ evsa)) eq_refl Hy)
      as (evsb & Hkb & Hwb).
    rewrite Hkb. simpl output.
    destruct (tree_eval b) as [rb|e]; simpl outcome_bind.
    + destruct (operator t ra rb) as [r|e].
      * exists (Enter v :: (evsa ++ evsb) ++ [Leave v]). split.
        -- simpl. f_equal. f_equal. by rewrite <- !(assoc_L (++)).
        -- constructor; [done|].
           apply Forall2_app; [by apply Forall2_app|by repeat constructor].
      * exists (Enter v :: evsa ++ evsb). split.
        -- simpl. f_equal. f_equal. by rewrite <- !(assoc_L (++)).
        -- constructor; [done|]. rewrite app_nil_r. by apply Forall2_app.
    + exists (Enter v :: evsa ++ evsb). split.
      * f_equal. f_equal. by rewrite <- !(assoc_L (++)).
      * constructor; [done|]. rewrite app_nil_r. by apply Forall2_app.
  - exists (Enter v :: evsa). split.
    + simpl. f_equal. f_equal. by rewrite <- !(assoc_L (++)).
    + constructor; [done|]. by rewrite !app_nil_r.
Qed.

Lemma visit_recording_walks t :
  forall depth h,
    (height t <= depth)%nat ->
    walks h (visit depth (recording Evaluator)) t.
Proof.
  induction t as [z|f| | |o IHo|a IHa b IHb|a IHa b IHb|a IHa b IHb
                 |a IHa b IHb|a IHa b IHb|o IHo|o IHo];
    intros depth h Hd;
    (destruct depth as [|depth]; [simpl in Hd; lia|]).
  1-6,11,12:
    intros v w Hh Hr; rewrite visit_S; unfold bind at 1;
    rewrite <- Hh in Hr;
    rewrite (type_name_repr _ _ _ Hr), recording_Evaluator_dispatch;
    rewrite Hh in Hr; by apply recording_leaf_step.
  all: simpl in Hd;
    intros v w Hh Hr; rewrite visit_S; unfold bind at 1;
    rewrite <- Hh in Hr;
    rewrite (type_name_repr _ _ _ Hr), recording_Evaluator_dispatch;
    rewrite Hh in Hr;
    (eapply recording_binary_step; [reflexivity|apply IHa; lia|apply IHb; lia
                                   |done|done]).
Qed.

(** ** Observing and silent computations *)

Lemma observes_ret {A} (a : A) : observes (ret a).
Proof. done. Qed.

Lemma observes_raise {A} e : observes (@raise A e).
Proof. done. Qed.

Lemma observes_lift {A} (o : outcome A) : observes (lift o).
Proof. done. Qed.

Lemma observes_emit e : observes (emit e).
Proof. done. Qed.

Lemma observes_type_name x : observes (type_name x).
Proof.
  intros w. split; [by rewrite type_name_world|].
  intros w' Hh. destruct x; simpl; try done. rewrite Hh.
  by destruct (heap w !! l).
Qed.

Lemma observes_getattr x attr : observes (getattr x attr).
Proof.
  intros w. split; [by rewrite getattr_world|].
  intros w' Hh. destruct x; simpl; try done. rewrite Hh.
  destruct (heap w !! l) as [o|]; [|done]. by destruct (ob_dict o !! attr).
Qed.

Lemma observes_bind {A B} (c : M A) (k : A -> M B) :
  observes c -> (forall a, observes (k a)) -> observes (bind c k).
Proof.
  intros Hc Hk w. destruct (Hc w) as [Hh Ho]. unfold bind. split.
  - destruct (c w) as [[a|e] w1]; simpl in *; [|done].
    destruct (Hk a w1) as [-> _]. done.
  - intros w' Hw'. specialize (Ho w' Hw').
    destruct (Hc w') as [Hh' _].
    destruct (c w) as [[a|e] w1], (c w') as [[a'|e'] w1']; simpl in *;
      try congruence.
    injection Ho as ->. apply (Hk a w1). congruence.
Qed.

Lemma silent_ret {A} (a : A) : silent (ret a).
Proof. done. Qed.

Lemma silent_raise {A} e : silent (@raise A e).
Proof. done. Qed.

Lemma silent_lift {A} (o : outcome A) : silent (lift o).
Proof. done. Qed.

Lemma silent_bind {A B} (c : M A) (k : A -> M B) :
  silent c -> (forall a, silent (k a)) -> silent (bind c k).
Proof.
  intros Hc Hk w. specialize (Hc w). unfold bind.
  destruct (c w) as [[a|e] w1]; simpl in *; [|done].
  rewrite (Hk a w1). done.
Qed.

Create HintDb py_frame.
#[local] Hint Resolve observes_ret observes_raise observes_lift observes_emit
  observes_type_name observes_getattr : py_frame.
#[local] Hint Resolve silent_ret silent_raise silent_lift type_name_world
  getattr_world : py_frame.

Ltac frame_steps :=
  repeat first
    [ apply observes_bind; [|intros ?]
    | apply silent_bind; [|intros ?]
    | progress eauto with py_frame ].

Lemma generic_visit_observer : method_observer generic_visit.
Proof. intros k Hk v. unfold generic_visit. frame_steps. Qed.

Lemma visit_Number_observer : method_observer visit_Number.
Proof. intros k Hk v. unfold visit_Number. frame_steps. Qed.

Lemma visit_Negate_observer : method_observer visit_Negate.
Proof. intros k Hk v. unfold visit_Negate. frame_steps. Qed.

Lemma visit_binary_observer op : method_observer (visit_binary op).
Proof. intros k Hk v. unfold visit_binary. frame_steps; apply Hk. Qed.

Lemma reporting_observer m : method_observer m -> method_observer (reporting m).
Proof. intros Hm k Hk v. unfold reporting. frame_steps. by apply Hm. Qed.

Lemma generic_visit_silent : method_silent generic_visit.
Proof. intros k Hk v. unfold generic_visit. frame_steps. intros w. apply type_name_world. Qed.

Lemma visit_Number_silent : method_silent visit_Number.
Proof. intros k Hk v. unfold visit_Number. frame_steps. intros w. apply getattr_world. Qed.

Lemma visit_Negate_silent : method_silent visit_Negate.
Proof. intros k Hk v. unfold visit_Negate. frame_steps. intros w. apply getattr_world. Qed.

Lemma visit_binary_silent op : method_silent (visit_binary op).
Proof.
  intros k Hk v. unfold visit_binary.
  frame_steps; first [apply Hk | intros w; apply getattr_world].
Qed.

(** ** The methods of the tables of the module *)

Lemma NodeVisitor_methods n m :
  NodeVisitor !! n = Some m -> m = generic_visit.
Proof.
  unfold NodeVisitor. intros H.
  apply lookup_singleton_Some in H as [_ <-]. done.
Qed.

Lemma Evaluator_methods n m :
  Evaluator !! n = Some m ->
  m = generic_visit \/ m = visit_Number \/ m = visit_Negate \/
  exists op, Evaluator_operator op /\ m = visit_binary op.
Proof.
  unfold Evaluator, subclass. intros H.
  apply lookup_union_Some_raw in H as [H|[_ H]].
  - unfold Evaluator_operator.
    repeat (apply lookup_insert_Some in H as [[_ <-]|[_ H]];
            [unfold visit_Add, visit_Sub, visit_Mul, visit_Div; eauto 10|]).
    by rewrite lookup_empty in H.
  - left. by eapply NodeVisitor_methods.
Qed.

Lemma NodeVisitor_observer : strategy_observer NodeVisitor.
Proof.
  intros n m ->%NodeVisitor_methods. apply generic_visit_observer.
Qed.

Lemma NodeVisitor_silent : strategy_silent NodeVisitor.
Proof.
  intros n m ->%NodeVisitor_methods. apply generic_visit_silent.
Qed.

Lemma Evaluator_observer : strategy_observer Evaluator.
Proof.
  intros n m [->|[->|[->|(op & _ & ->)]]]%Evaluator_methods;
    auto using generic_visit_observer, visit_Number_observer,
      visit_Negate_observer, visit_binary_observer.
Qed.

Lemma Evaluator_silent : strategy_silent Evaluator.
Proof.
  intros n m [->|[->|[->|(op & _ & ->)]]]%Evaluator_methods;
    auto using generic_visit_silent, visit_Number_silent,
      visit_Negate_silent, visit_binary_silent.
Qed.

Lemma recording_observer base :
  strategy_observer base -> strategy_observer (recording base).
Proof.
  intros Hb n m H. unfold recording in H. rewrite lookup_fmap in H.
  apply fmap_Some in H as (m0 & Hm0 & ->).
  apply reporting_observer. by eapply Hb.
Qed.

(** The dispatcher adds no effect of its own: over a strategy whose
    methods only observe the store, so does [visit]. *)
Lemma visit_observer self :
  strategy_observer self -> forall depth, observer (visit depth self).
Proof.
  intros Hs. induction depth as [|depth IH]; intros v.
  - apply observes_raise.
  - rewrite visit_S. apply observes_bind; [apply observes_type_name|].
    intros n. destruct (self !! _) as [m|] eqn:Hm.
    + by apply (Hs _ _ Hm).
    + unfold self_generic_visit.
      destruct (self !! "generic_visit") as [g|] eqn:Hg.
      * by apply (Hs _ _ Hg).
      * apply observes_raise.
Qed.

Lemma visit_silent self :
  strategy_silent self -> forall depth v, silent (visit depth self v).
Proof.
  intros Hs. induction depth as [|depth IH]; intros v.
  - apply silent_raise.
  - rewrite visit_S. apply silent_bind; [intros w; apply type_name_world|].
    intros n. destruct (self !! _) as [m|] eqn:Hm.
    + by apply (Hs _ _ Hm).
    + unfold self_generic_visit.
      destruct (self !! "generic_visit") as [g|] eqn:Hg.
      * by apply (Hs _ _ Hg).
      * apply silent_raise.
Qed.

(** ** Construction *)

Lemma alloc_run c w :
  alloc c w =
  (Return (VRef (length (heap w))),
   World (heap w ++ [Instance c ∅]) (output w)).
Proof. reflexivity. Qed.

Lemma setattr_last h out c d attr v :
  setattr (VRef (length h)) attr v (World (h ++ [Instance c d]) out) =
  (Return tt, World (h ++ [Instance c (<[attr := v]> d)]) out).
Proof.
  unfold setattr. cbn [heap output].
  rewrite list_lookup_middle by reflexivity. cbn [ob_type ob_dict].
  rewrite insert_app_r_alt by reflexivity. rewrite Nat.sub_diag.
  reflexivity.
Qed.

Lemma stored_unary c x :
  init_attrs c = ["operand"] -> stored c [x] = <["operand" := x]> ∅.
Proof. unfold stored. intros ->. reflexivity. Qed.

Lemma stored_number x : stored cls.Number [x] = <["value" := x]> ∅.
Proof. reflexivity. Qed.

Lemma stored_binary c x y :
  init_attrs c = ["left"; "right"] ->
  stored c [x; y] = <["right" := y]> (<["left" := x]> ∅).
Proof. unfold stored. intros ->. reflexivity. Qed.

(** A call on the right number of arguments allocates one instance, stores
    the arguments in it as they are and touches nothing else. *)
Lemma construct_ok c args w :
  length args = arity c ->
  construct c args w =
  (Return (VRef (length (heap w))),
   World (heap w ++ [Instance c (stored c args)]) (output w)).
Proof.
  intros Hn.
  destruct c; destruct args as [|x [|y [|z args]]]; try discriminate Hn;
    unfold construct, init_of.
  1: reflexivity.
  all: unfold bind at 1; rewrite alloc_run;
    unfold UnaryOperator___init__, BinaryOperator___init__, Number___init__,
      bind;
    rewrite ?setattr_last;
    rewrite ?stored_number, ?stored_unary, ?stored_binary by reflexivity;
    reflexivity.
Qed.

(** A call on any other number of arguments raises the arity error. *)
Lemma construct_bad_arity c args w :
  length args <> arity c ->
  (construct c args w).1 =
  Raise (TypeError (BadArity (callee c) (arity c) (length args))).
Proof.
  intros Hn.
  destruct c; destruct args as [|x [|y [|z args]]];
    try (exfalso; apply Hn; reflexivity); reflexivity.
Qed.

(** ** Assembling a tree *)

Lemma has_attr_extend h h' v c attr x :
  h `prefix_of` h' -> has_attr h v c attr x -> has_attr h' v c attr x.
Proof.
  intros Hp (l & o & -> & Hl & Hc & Hx). exists l, o.
  split; [done|]. split; [|done]. by eapply prefix_lookup_Some.
Qed.

Lemma is_instance_extend h h' v c :
  h `prefix_of` h' -> is_instance h v c -> is_instance h' v c.
Proof.
  intros Hp (l & o & -> & Hl & Hc). exists l, o.
  split; [done|]. split; [|done]. by eapply prefix_lookup_Some.
Qed.

(** Allocation never disturbs the trees already in the store. *)
Lemma repr_extend h h' t :
  h `prefix_of` h' -> forall v, repr h v t -> repr h' v t.
Proof.
  intros Hp.
  induction t as [z|f| | |o IHo|a IHa b IHb|a IHa b IHb|a IHa b IHb
                 |a IHa b IHb|a IHa b IHb|o IHo|o IHo];
    simpl; intros v; try done.
  - by apply is_instance_extend.
  - intros (x & H & Hx). exists x. split; [by eapply has_attr_extend|auto].
  - intros (x & y & [Hl Hr] & Hx & Hy). exists x, y.
    split; [split; by eapply has_attr_extend|auto].
  - intros (x & y & [Hl Hr] & Hx & Hy). exists x, y.
    split; [split; by eapply has_attr_extend|auto].
  - intros (x & y & [Hl Hr] & Hx & Hy). exists x, y.
    split; [split; by eapply has_attr_extend|auto].
  - intros (x & y & [Hl Hr] & Hx & Hy). exists x, y.
    split; [split; by eapply has_attr_extend|auto].
  - intros (x & y & [Hl Hr] & Hx & Hy). exists x, y.
    split; [split; by eapply has_attr_extend|auto].
  - intros (x & H & Hx). exists x. split; [by eapply has_attr_extend|auto].
  - intros (x & H & Hx). exists x. split; [by eapply has_attr_extend|auto].
Qed.

Lemma has_attr_last h c d attr x :
  d !! attr = Some x ->
  has_attr (h ++ [Instance c d]) (VRef (length h)) c attr x.
Proof.
  intros Hx. exists (length h), (Instance c d).
  split; [done|]. split; [|done]. by apply list_lookup_middle.
Qed.

Lemma build_unary c t0 w v0 w0 :
  arity c = 1%nat ->
  assembled t0 w v0 w0 ->
  exists v w',
    (let* vo := build t0 in construct c [vo]) w = (Return v, w') /\
    heap w `prefix_of` heap w' /\ output w' = output w /\
    repr (heap w') v0 t0 /\
    forall attr, init_attrs c = [attr] -> has_attr (heap w') v c attr v0.
Proof.
  intros Hc (Hb & Hr & Hp & Ho).
  exists (VRef (length (heap w0))),
    (World (heap w0 ++ [Instance c (stored c [v0])]) (output w0)).
  split; [|split; [|split; [|split]]].
  - unfold bind. rewrite Hb. by apply construct_ok.
  - simpl. etrans; [exact Hp|]. by apply prefix_app_r.
  - done.
  - simpl. eapply repr_extend; [|exact Hr]. by apply prefix_app_r.
  - intros attr Ha. simpl. apply has_attr_last.
    unfold stored. rewrite Ha. simpl. apply lookup_insert_eq.
Qed.

Lemma build_binary c ta tb w va wa vb wb :
  init_attrs c = ["left"; "right"] ->
  assembled ta w va wa ->
  assembled tb wa vb wb ->
  exists v w',
    (let* x := build ta in let* y := build tb in construct c [x; y]) w =
      (Return v, w') /\
    heap w `prefix_of` heap w' /\ output w' = output w /\
    is_binary (heap w') v c va vb /\
    repr (heap w') va ta /\ repr (heap w') vb tb.
Proof.
  intros Hc (Hba & Hra & Hpa & Hoa) (Hbb & Hrb & Hpb & Hob).
  exists (VRef (length (heap wb))),
    (World (heap wb ++ [Instance c (stored c [va; vb])]) (output wb)).
  assert (arity c = 2%nat) as Hn by by destruct c.
  split; [|split; [|split; [|split; [|split]]]].
  - unfold bind. rewrite Hba, Hbb. by apply construct_ok.
  - simpl. etrans; [exact Hpa|]. etrans; [exact Hpb|]. by apply prefix_app_r.
  - simpl. congruence.
  - simpl. rewrite (stored_binary _ _ _ Hc). split; apply has_attr_last.
    + rewrite lookup_insert_ne by done. apply lookup_insert_eq.
    + apply lookup_insert_eq.
  - simpl. eapply repr_extend; [|exact Hra].
    etrans; [exact Hpb|]. by apply prefix_app_r.
  - simpl. eapply repr_extend; [|exact Hrb]. by apply prefix_app_r.
Qed.

Lemma build_assembled t : forall w, exists v w', assembled t w v w'.
Proof.
  induction t as [z|f| | |o IHo|a IHa b IHb|a IHa b IHb|a IHa b IHb
                 |a IHa b IHb|a IHa b IHb|o IHo|o IHo]; intros w.
  1-3: by eexists _, w.
  - exists (VRef (length (heap w))),
      (World (heap w ++ [Instance cls.Node (stored cls.Node [])]) (output w)).
    split; [by apply (construct_ok cls.Node [])|].
    split; [|split; [by apply prefix_app_r|done]].
    exists (length (heap w)), (Instance cls.Node (stored cls.Node [])).
    split; [done|]. split; [|done]. by apply list_lookup_middle.
  - destruct (IHo w) as (v0 & w0 & H0).
    destruct (build_unary cls.UnaryOperator o w v0 w0 eq_refl H0)
      as (v & w' & Hb & Hp & Ho & Hr & Ha).
    exists v, w'. split; [done|]. split; [|done].
    exists v0. split; [by apply Ha|done].
  - destruct (IHa w) as (va & wa & Ha). destruct (IHb wa) as (vb & wb & Hb).
    destruct (build_binary cls.BinaryOperator a b w va wa vb wb eq_refl Ha Hb)
      as (v & w' & H1 & H2 & H3 & H4 & H5 & H6).
    exists v, w'. split; [done|]. split; [|done]. by exists va, vb.
  - destruct (IHa w) as (va & wa & Ha). destruct (IHb wa) as (vb & wb & Hb).
    destruct (build_binary cls.Add a b w va wa vb wb eq_refl Ha Hb)
      as (v & w' & H1 & H2 & H3 & H4 & H5 & H6).
    exists v, w'. split; [done|]. split; [|done]. by exists va, vb.
  - destruct (IHa w) as (va & wa & Ha). destruct (IHb wa) as (vb & wb & Hb).
    destruct (build_binary cls.Sub a b w va wa vb wb eq_refl Ha Hb)
      as (v & w' & H1 & H2 & H3 & H4 & H5 & H6).
    exists v, w'. split; [done|]. split; [|done]. by exists va, vb.
  - destruct (IHa w) as (va & wa & Ha). destruct (IHb wa) as (vb & wb & Hb).
    destruct (build_binary cls.Mul a b w va wa vb wb eq_refl Ha Hb)
      as (v & w' & H1 & H2 & H3 & H4 & H5 & H6).
    exists v, w'. split; [done|]. split; [|done]. by exists va, vb.
  - destruct (IHa w) as (va & wa & Ha). destruct (IHb wa) as (vb & wb & Hb).
    destruct (build_binary cls.Div a b w va wa vb wb eq_refl Ha Hb)
      as (v & w' & H1 & H2 & H3 & H4 & H5 & H6).
    exists v, w'. split; [done|]. split; [|done]. by exists va, vb.
  - destruct (IHo w) as (v0 & w0 & H0).
    destruct (build_unary cls.Negate o w v0 w0 eq_refl H0)
      as (v & w' & Hb & Hp & Ho & Hr & Ha).
    exists v, w'. split; [done|]. split; [|done].
    exists v0. split; [by apply Ha|done].
  - destruct (IHo w) as (v0 & w0 & H0).
    destruct (build_unary cls.Number o w v0 w0 eq_refl H0)
      as (v & w' & Hb & Hp & Ho & Hr & Ha).
    exists v, w'. split; [done|]. split; [|done].
    exists v0. split; [by apply Ha|done].
Qed.

(** ** Deciding that a value unfolds to a tree *)

Lemma val_eqb_eq x y : val_eqb x y = true -> x = y.
Proof.
  destruct x, y; simpl; try done.
  - by intros ->%Z.eqb_eq.
  - by intros ->%FloatAxioms.Leibniz.eqb_spec.
  - by intros ->%Nat.eqb_eq.
Qed.

Lemma cls_eqb_eq c d : cls_eqb c d = true -> c = d.
Proof. by destruct c, d. Qed.

Lemma instance_of_sound h v c : instance_of h v c = true -> is_instance h v c.
Proof.
  destruct v as [| | |l]; simpl; try done.
  destruct (h !! l) as [o|] eqn:Hl; [|done].
  intros Hc%cls_eqb_eq. by exists l, o.
Qed.

Lemma attr_of_sound h v c attr x :
  attr_of h v c attr = Some x -> has_attr h v c attr x.
Proof.
  destruct v as [| | |l]; simpl; try done.
  destruct (h !! l) as [o|] eqn:Hl; [|done].
  destruct (cls_eqb (ob_type o) c) eqn:Hc; [|done].
  apply cls_eqb_eq in Hc. intros Hx. by exists l, o.
Qed.

Lemma unary_of_sound h v c attr k :
  unary_of h v c attr k = true ->
  exists x, has_attr h v c attr x /\ k x = true.
Proof.
  unfold unary_of. destruct (attr_of h v c attr) as [x|] eqn:Hx; [|done].
  intros Hk. exists x. split; [by apply attr_of_sound|done].
Qed.

Lemma binary_of_sound h v c k1 k2 :
  binary_of h v c k1 k2 = true ->
  exists x y, is_binary h v c x y /\ k1 x = true /\ k2 y = true.
Proof.
  unfold binary_of.
  destruct (attr_of h v c "left") as [x|] eqn:Hx; [|done].
  destruct (attr_of h v c "right") as [y|] eqn:Hy; [|done].
  intros [H1 H2]%andb_true_iff. exists x, y.
  split; [split; by apply attr_of_sound|done].
Qed.

Lemma represents_sound h t : forall v, represents h t v = true -> repr h v t.
Proof.
  induction t as [z|f| | |o IHo|a IHa b IHb|a IHa b IHb|a IHa b IHb
                 |a IHa b IHb|a IHa b IHb|o IHo|o IHo];
    simpl; intros v H.
  1-3: by apply val_eqb_eq.
  - by apply instance_of_sound.
  - apply unary_of_sound in H as (x & H & Hx). exists x. split; [done|by apply IHo].
  - apply binary_of_sound in H as (x & y & H & Hx & Hy). exists x, y.
    split; [done|]. split; [by apply IHa|by apply IHb].
  - apply binary_of_sound in H as (x & y & H & Hx & Hy). exists x, y.
    split; [done|]. split; [by apply IHa|by apply IHb].
  - apply binary_of_sound in H as (x & y & H & Hx & Hy). exists x, y.
    split; [done|]. split; [by apply IHa|by apply IHb].
  - apply binary_of_sound in H as (x & y & H & Hx & Hy). exists x, y.
    split; [done|]. split; [by apply IHa|by apply IHb].
  - apply binary_of_sound in H as (x & y & H & Hx & Hy). exists x, y.
    split; [done|]. split; [by apply IHa|by apply IHb].
  - apply unary_of_sound in H as (x & H & Hx). exists x. split; [done|by apply IHo].
  - apply unary_of_sound in H as (x & H & Hx). exists x. split; [done|by apply IHo].
Qed.

(** ** The evaluator against the arithmetic interpretation *)

Lemma tree_eval_arith a :
  tree_eval (arith_term a) = outcome_map VFloat (denote a).
Proof.
  induction a as [[z|f]|l IHl r IHr|l IHl r IHr|l IHl r IHr|l IHl r IHr];
    simpl; try done.
  all: rewrite IHl, IHr; destruct (denote l) as [x|e]; simpl; [|done];
    destruct (denote r) as [y|e]; simpl; try done.
Qed.

Example t4_assembled : build t4 empty_world = (Return (VRef 8%nat), w4).
Proof. vm_compute. reflexivity. Qed.

Example t4_repr : repr (heap w4) (VRef 8%nat) t4.
Proof. apply represents_sound. vm_compute. reflexivity. Qed.

(** ** The exceptions a traversal can raise *)

Lemma int_to_float_raises z e : int_to_float z = Raise e -> e = OverflowError.
Proof.
  unfold int_to_float. destruct (binary_normalize _ _ _ _ _); by intros [=].
Qed.

Lemma int_true_divide_raises a b e :
  int_true_divide a b = Raise e -> ArithmeticFailure e.
Proof.
  unfold int_true_divide. destruct (b =? 0); [intros [= <-]; by left|].
  cbv zeta. destruct (binary_normalize _ _ _ _ _); intros [= <-]. by right.
Qed.

Lemma float_divide_raises a b e :
  float_divide a b = Raise e -> e = ZeroDivisionError.
Proof. unfold float_divide. destruct (PrimFloat.eqb b 0); by intros [=]. Qed.

Lemma py_binop_raises s fz ff x y e :
  (forall a b e, fz a b = Raise e -> ArithmeticFailure e) ->
  (forall a b e, ff a b = Raise e -> ArithmeticFailure e) ->
  py_binop s fz ff x y = Raise e ->
  ArithmeticFailure e \/ e = TypeError (UnsupportedOperands s).
Proof.
  intros Hz Hf. destruct x as [a|a| |], y as [b|b| |]; simpl;
    try (intros [= <-]; by right).
  - intros H. left. by eapply Hz.
  - destruct (int_to_float a) as [a'|e'] eqn:Ha; simpl.
    + destruct (ff a' b) as [r|e'] eqn:Hr; simpl; intros [= <-].
      left. by eapply Hf.
    + intros [= <-]. left. right. by eapply int_to_float_raises.
  - destruct (int_to_float b) as [b'|e'] eqn:Hb; simpl.
    + destruct (ff a b') as [r|e'] eqn:Hr; simpl; intros [= <-].
      left. by eapply Hf.
    + intros [= <-]. left. right. by eapply int_to_float_raises.
  - destruct (ff a b) as [r|e'] eqn:Hr; simpl; intros [= <-].
    left. by eapply Hf.
Qed.

Lemma Evaluator_operator_raises op x y e :
  Evaluator_operator op ->
  op x y = Raise e ->
  ArithmeticFailure e \/ exists s, e = TypeError (UnsupportedOperands s).
Proof.
  assert (forall s fz ff,
            (forall a b e, fz a b = Raise e -> ArithmeticFailure e) ->
            (forall a b e, ff a b = Raise e -> ArithmeticFailure e) ->
            py_binop s fz ff x y = Raise e ->
            ArithmeticFailure e \/
            exists s, e = TypeError (UnsupportedOperands s)) as Hb.
  { intros s fz ff Hz Hf H.
    destruct (py_binop_raises _ _ _ _ _ _ Hz Hf H) as [?| ->]; eauto. }
  intros [->|[->|[->| ->]]]; apply Hb; try (by intros a b e' [=]).
  - intros a b e'. destruct (int_true_divide a b) as [r|e''] eqn:Hd; simpl;
      intros [= <-]. by eapply int_true_divide_raises.
  - intros a b e' ->%float_divide_raises. by left.
Qed.

(** ** [Negate] in the trees of the data model *)

Lemma well_formed_node t : well_formed t = true -> scalar t = None.
Proof. by destruct t. Qed.

(** On a tree of the data model the evaluator returns a float, or raises
    the [TypeError] of a [Negate] or a failure of the arithmetic. *)
Lemma well_formed_tree_eval t :
  well_formed t = true ->
  (exists f, tree_eval t = Return (VFloat f)) \/
  (exists e, tree_eval t = Raise e /\
             (e = TypeError BadUnaryOperand \/ ArithmeticFailure e)).
Proof.
  assert (forall op a b,
            Evaluator_operator op ->
            (exists f, tree_eval a = Return (VFloat f)) \/
            (exists e, tree_eval a = Raise e /\
                       (e = TypeError BadUnaryOperand \/
                        ArithmeticFailure e)) ->
            (exists f, tree_eval b = Return (VFloat f)) \/
            (exists e, tree_eval b = Raise e /\
                       (e = TypeError BadUnaryOperand \/
                        ArithmeticFailure e)) ->
            (exists f,
               outcome_bind (tree_eval a) (fun x =>
               outcome_bind (tree_eval b) (fun y => op x y)) =
               Return (VFloat f)) \/
            (exists e,
               outcome_bind (tree_eval a) (fun x =>
               outcome_bind (tree_eval b) (fun y => op x y)) = Raise e /\
               (e = TypeError BadUnaryOperand \/ ArithmeticFailure e)))
    as Hbin.
  { intros op a b Hop [[x ->]|(e & -> & He)] Hb; simpl; [|by eauto].
    destruct Hb as [[y ->]|(e & -> & He)]; simpl; [|by eauto].
    destruct Hop as [->|[->|[->| ->]]]; simpl; eauto.
    unfold float_divide. destruct (PrimFloat.eqb y 0); simpl; [|by eauto].
    right. exists ZeroDivisionError. split; [done|]. right. by left. }
  induction t as [z|f| | |o IHo|a IHa b IHb|a IHa b IHb|a IHa b IHb
                 |a IHa b IHb|a IHa b IHb|o IHo|o IHo];
    simpl; try done.
  1-4: intros [Hwa Hwb]%andb_true_iff;
    apply Hbin; [unfold Evaluator_operator; tauto|auto|auto].
  - intros Hw. right. unfold on_attribute. rewrite (well_formed_node _ Hw).
    eauto.
  - destruct o; try done; intros _; unfold on_attribute; simpl; [|by eauto].
    destruct (int_to_float z) as [f|e] eqn:Hz; simpl; [by eauto|].
    right. exists e. split; [done|]. right. right.
    by eapply int_to_float_raises.
Qed.

(** Unless the arithmetic fails first, a [Negate] in such a tree ends the
    visit with its [TypeError]: the tree never evaluates to a number. *)
Lemma well_formed_Negate_raises t :
  well_formed t = true ->
  has_Negate t = true ->
  exists e,
    tree_eval t = Raise e /\
    (e = TypeError BadUnaryOperand \/ ArithmeticFailure e).
Proof.
  intros Hw Hn. destruct (well_formed_tree_eval t Hw) as [[f Hf]|H]; [|done].
  exfalso. revert f Hw Hn Hf.
  induction t as [z|f| | |o IHo|a IHa b IHb|a IHa b IHb|a IHa b IHb
                 |a IHa b IHb|a IHa b IHb|o IHo|o IHo];
    simpl; try done.
  5: { intros f Hw _. unfold on_attribute. by rewrite (well_formed_node _ Hw). }
  all: intros f [Hwa Hwb]%andb_true_iff [Ha|Hb]%orb_true_iff;
    (destruct (well_formed_tree_eval a Hwa) as [[x Hx]|(e & He & _)];
     [|by rewrite He]);
    (destruct (well_formed_tree_eval b Hwb) as [[y Hy]|(e & He & _)];
     [|by rewrite Hx, He]);
    intros _; eauto.
Qed.

(** ** Arity safety *)

Lemma arity_safe_bind {A B} (c : M A) (k : A -> M B) :
  arity_safe c -> (forall a, arity_safe (k a)) -> arity_safe (bind c k).
Proof.
  intros Hc Hk w e. unfold bind. specialize (Hc w).
  destruct (c w) as [[a|e'] w1]; simpl in *.
  - apply Hk.
  - intros [= <-]. by apply Hc.
Qed.

Lemma arity_safe_ret {A} (a : A) : arity_safe (ret a).
Proof. by intros w e. Qed.

Lemma arity_safe_emit ev : arity_safe (emit ev).
Proof. by intros w e. Qed.

Lemma arity_safe_raise {A} e : ~ MalformedTree e -> arity_safe (@raise A e).
Proof. intros He w e' [= <-]. done. Qed.

Lemma arity_safe_lift {A} (o : outcome A) :
  (forall e, o = Raise e -> ~ MalformedTree e) -> arity_safe (lift o).
Proof. intros Ho w e. apply Ho. Qed.

Lemma arity_safe_type_name x : arity_safe (type_name x).
Proof.
  intros w e. destruct x; simpl; try done.
  destruct (heap w !! l); simpl; [done|]. by intros [= <-] (? & ? & ? & [=]).
Qed.

Lemma arity_safe_getattr x attr : arity_safe (getattr x attr).
Proof.
  intros w e.
  destruct x; simpl; try by intros [= <-] (? & ? & ? & [=]).
  destruct (heap w !! l) as [o|]; simpl.
  - destruct (ob_dict o !! attr); simpl; [done|].
    by intros [= <-] (? & ? & ? & [=]).
  - by intros [= <-] (? & ? & ? & [=]).
Qed.

Lemma generic_visit_arity_safe : method_arity_safe generic_visit.
Proof.
  intros k Hk v. unfold generic_visit.
  apply arity_safe_bind; [apply arity_safe_type_name|].
  intros n. apply arity_safe_raise. by intros (? & ? & ? & [=]).
Qed.

Lemma visit_Number_arity_safe : method_arity_safe visit_Number.
Proof.
  intros k Hk v. unfold visit_Number.
  apply arity_safe_bind; [apply arity_safe_getattr|].
  intros x. apply arity_safe_lift. intros e He (? & ? & ? & ->).
  destruct x; simpl in He; try done.
  destruct (int_to_float z) eqn:Hz; simpl in He; [done|].
  injection He as ->. by apply int_to_float_raises in Hz.
Qed.

Lemma visit_Negate_arity_safe : method_arity_safe visit_Negate.
Proof.
  intros k Hk v. unfold visit_Negate.
  apply arity_safe_bind; [apply arity_safe_getattr|].
  intros x. apply arity_safe_lift. intros e He (? & ? & ? & ->).
  by destruct x.
Qed.

Lemma visit_binary_arity_safe op :
  Evaluator_operator op -> method_arity_safe (visit_binary op).
Proof.
  intros Hop k Hk v. unfold visit_binary.
  apply arity_safe_bind; [apply arity_safe_getattr|]. intros x.
  apply arity_safe_bind; [apply Hk|]. intros a.
  apply arity_safe_bind; [apply arity_safe_getattr|]. intros y.
  apply arity_safe_bind; [apply Hk|]. intros b.
  apply arity_safe_lift. intros e He (? & ? & ? & ->).
  destruct (Evaluator_operator_raises _ _ _ _ Hop He) as [[|]|[s ?]]; done.
Qed.

Lemma reporting_arity_safe m :
  method_arity_safe m -> method_arity_safe (reporting m).
Proof.
  intros Hm k Hk v. unfold reporting.
  apply arity_safe_bind; [apply arity_safe_emit|]. intros _.
  apply arity_safe_bind; [by apply Hm|]. intros r.
  apply arity_safe_bind; [apply arity_safe_emit|]. intros _.
  apply arity_safe_ret.
Qed.

Lemma Evaluator_arity_safe : strategy_arity_safe Evaluator.
Proof.
  intros n m [->|[->|[->|(op & Hop & ->)]]]%Evaluator_methods;
    auto using generic_visit_arity_safe, visit_Number_arity_safe,
      visit_Negate_arity_safe, visit_binary_arity_safe.
Qed.

Lemma NodeVisitor_arity_safe : strategy_arity_safe NodeVisitor.
Proof.
  intros n m ->%NodeVisitor_methods. apply generic_visit_arity_safe.
Qed.

Lemma recording_arity_safe base :
  strategy_arity_safe base -> strategy_arity_safe (recording base).
Proof.
  intros Hb n m H. unfold recording in H. rewrite lookup_fmap in H.
  apply fmap_Some in H as (m0 & Hm0 & ->).
  apply reporting_arity_safe. by eapply Hb.
Qed.

Lemma visit_arity_safe self :
  strategy_arity_safe self -> forall depth v, arity_safe (visit depth self v).
Proof.
  intros Hs. induction depth as [|depth IH]; intros v.
  - apply arity_safe_raise. by intros (? & ? & ? & [=]).
  - rewrite visit_S. apply arity_safe_bind; [apply arity_safe_type_name|].
    intros n. destruct (self !! _) as [m|] eqn:Hm.
    + by apply (Hs _ _ Hm).
    + unfold self_generic_visit.
      destruct (self !! "generic_visit") as [g|] eqn:Hg.
      * by apply (Hs _ _ Hg).
      * apply arity_safe_raise. by intros (? & ? & ? & [=]).
Qed.

(** ** The error of the default handler *)

Lemma unhandled_UnhandledVariant tag : UnhandledVariant tag (unhandled tag).
Proof. reflexivity. Qed.

(** ** Failure and order *)

Lemma visit_binary_left_raises op (k : val -> M val) w node c x y e w1 :
  is_binary (heap w) node c x y ->
  k x w = (Raise e, w1) ->
  visit_binary op k node w = (Raise e, w1).
Proof.
  intros [Hl _] Hk. unfold visit_binary, bind.
  by rewrite (getattr_has_attr _ _ _ _ _ Hl), Hk.
Qed.

Lemma visit_binary_right_raises op (k : val -> M val) w node c x y a w1 e w2 :
  is_binary (heap w) node c x y ->
  k x w = (Return a, w1) ->
  heap w1 = heap w ->
  k y w1 = (Raise e, w2) ->
  visit_binary op k node w = (Raise e, w2).
Proof.
  intros Hb Hx Hh Hy.
  by rewrite (visit_binary_run _ _ _ _ _ _ _ _ _ Hb Hx Hh), Hy.
Qed.

Lemma walk_left_raises t a b e :
  operands t = Some (a, b) ->
  tree_eval a = Raise e ->
  tree_eval t = Raise e /\ walk t = Entered t :: walk a.
Proof.
  intros Ho Ha. rewrite (operands_walk _ _ _ Ho). unfold completes.
  rewrite (operands_tree_eval _ _ _ Ho), Ha. simpl.
  by rewrite !app_nil_r.
Qed.

Lemma walk_completes t a b :
  operands t = Some (a, b) ->
  completes t = true ->
  completes a = true /\ completes b = true /\
  walk t = Entered t :: walk a ++ walk b ++ [Left t].
Proof.
  intros Ho. rewrite (operands_walk _ _ _ Ho). unfold completes.
  rewrite (operands_tree_eval _ _ _ Ho).
  destruct (tree_eval a) as [x|e]; simpl; [|done].
  destruct (tree_eval b) as [y|e]; simpl; [|done].
  intros ->. by rewrite <- (assoc_L (++)).
Qed.

(** ** The strategies of the module *)

Lemma source_strategy_observer self :
  source_strategy self -> strategy_observer self.
Proof.
  induction 1; auto using NodeVisitor_observer, Evaluator_observer,
    recording_observer.
Qed.

(** * Main results *)

(** C1.  Arithmetic correctness.  On every tree built only from [Number]
    (over an integer or a float), [Add], [Sub], [Mul] and [Div], a visit by
    [Evaluator] whose recursion budget covers the height of the tree ends,
    in the world it started from, with the arithmetic interpretation of
    the tree in floating point, integers being widened to floats.  Every
    such tree can be assembled, in any world, and then evaluates so.  On
    the tree [1 + 2 * (3 - 4) / 5] of the module the result is [0.6]. *)
Theorem Evaluator_arithmetic :
  (forall (a : arith) (depth : nat) (v : val) (w : world),
     repr (heap w) v (arith_term a) ->
     (height (arith_term a) <= depth)%nat ->
     visit depth Evaluator v w = (outcome_map VFloat (denote a), w)) /\
  (forall (a : arith) (w : world),
     exists v w',
       build (arith_term a) w = (Return v, w') /\
       visit (height (arith_term a)) Evaluator v w' =
         (outcome_map VFloat (denote a), w')) /\
  (run 5 Evaluator t4 empty_world).1 = Return (VFloat 0.6).
Proof.
  assert (forall (a : arith) (depth : nat) (v : val) (w : world),
            repr (heap w) v (arith_term a) ->
            (height (arith_term a) <= depth)%nat ->
            visit depth Evaluator v w = (outcome_map VFloat (denote a), w))
    as Hv.
  { intros a depth v w Hr Hd.
    rewrite (visit_Evaluator_tree _ _ _ _ Hr Hd). by rewrite tree_eval_arith. }
  split; [exact Hv|]. split.
  - intros a w.
    destruct (build_assembled (arith_term a) w) as (v & w' & Hb & Hr & _).
    exists v, w'. split; [exact Hb|]. by apply Hv.
  - vm_compute. reflexivity.
Qed.

Lemma Evaluator_arithmetic_t4 :
  repr (heap w4) (VRef 8%nat) (arith_term a4) /\
  (height (arith_term a4) <= 5)%nat /\
  visit 5 Evaluator (VRef 8%nat) w4 = (Return (VFloat 0.6), w4).
Proof.
  split; [exact t4_repr|]. split; [apply le_n|].
  exact (proj1 Evaluator_arithmetic a4 5%nat (VRef 8%nat) w4 t4_repr (le_n 5)).
Defined.

(** C2.  The handler of [Negate] returns the negation of what the field
    [operand] holds: whatever [self.visit] is, it is never called, so a
    budget of one call suffices and a recording subclass reports the node
    alone. *)
Theorem visit_Negate_negates_stored_operand
    (k : val -> M val) (depth : nat) (node x : val) (w : world) :
  is_unary (heap w) node cls.Negate x ->
  visit_Negate k node w = (py_neg x, w) /\
  visit (S depth) Evaluator node w = (py_neg x, w) /\
  visit (S depth) (recording Evaluator) node w =
    (py_neg x,
     World (heap w)
       (output w ++ Enter node ::
          match py_neg x with Return _ => [Leave node] | Raise _ => [] end)).
Proof.
  intros H.
  assert (type_name node w = (Return "Negate", w)) as Hn.
  { apply (type_name_instance w node cls.Negate).
    by eapply has_attr_instance. }
  split; [by apply visit_Negate_run|]. split.
  - rewrite visit_S. unfold bind at 1. rewrite Hn.
    change (visit_Negate (visit depth Evaluator) node w = (py_neg x, w)).
    by apply visit_Negate_run.
  - rewrite visit_S. unfold bind at 1. rewrite Hn.
    change (reporting visit_Negate (visit depth (recording Evaluator)) node w
            = (py_neg x,
               World (heap w)
                 (output w ++ Enter node ::
                    match py_neg x with
                    | Return _ => [Leave node]
                    | Raise _ => []
                    end))).
    rewrite reporting_run, (visit_Negate_run _ _ node x) by done.
    destruct (py_neg x); simpl; [|done].
    by rewrite <- (assoc_L (++)).
Qed.

Lemma visit_Negate_negates_stored_operand_5 :
  is_unary (heap w_negate_5) (VRef 0%nat) cls.Negate (VInt 5) /\
  visit 1 Evaluator (VRef 0%nat) w_negate_5 = (Return (VInt (-5)), w_negate_5).
Proof.
  assert (is_unary (heap w_negate_5) (VRef 0%nat) cls.Negate (VInt 5)) as H.
  { apply attr_of_sound. vm_compute. reflexivity. }
  split; [exact H|].
  exact (proj1 (proj2 (visit_Negate_negates_stored_operand
                         (fun _ => raise RecursionError) 0 _ _ _ H))).
Defined.

(** C3.  A [Negate] whose operand is a node, as the data model has it,
    makes the evaluator raise [TypeError]: the unary minus is applied to
    the instance in the field.  The visit of a [Negate] returns only when
    the field holds a raw integer or float, and then its negation.  A tree
    of the data model that contains a [Negate] therefore never evaluates to
    a number: its visit raises that [TypeError], unless a division by zero
    or an overflow comes first in the traversal. *)
Theorem visit_Negate_of_node_raises
    (o : term) (depth : nat) (v : val) (w : world) :
  repr (heap w) v (Negate o) ->
  (1 <= depth)%nat ->
  (scalar o = None ->
   visit depth Evaluator v w = (Raise (TypeError BadUnaryOperand), w)) /\
  (forall r w',
     visit depth Evaluator v w = (Return r, w') ->
     (exists z, o = PyInt z /\ r = VInt (- z)) \/
     (exists f, o = PyFloat f /\ r = VFloat (- f)%float)) /\
  (forall t depth' v',
     well_formed t = true -> has_Negate t = true ->
     repr (heap w) v' t -> (height t <= depth')%nat ->
     exists e,
       visit depth' Evaluator v' w = (Raise e, w) /\
       (e = TypeError BadUnaryOperand \/ ArithmeticFailure e)).
Proof.
  intros Hr Hd. rewrite (visit_Evaluator_tree _ _ _ _ Hr Hd). simpl.
  unfold on_attribute. split; [by intros ->|]. split.
  - intros r w'. destruct o; simpl; try done.
    + intros [= <- _]. left. eauto.
    + intros [= <- _]. right. eauto.
  - intros t depth' v' Hw Hn Hr' Hd'.
    rewrite (visit_Evaluator_tree _ _ _ _ Hr' Hd').
    destruct (well_formed_Negate_raises t Hw Hn) as (e & -> & He). eauto.
Qed.

Lemma visit_Negate_of_node_raises_Number :
  repr (heap w_negate_number) (VRef 1%nat) negate_number /\
  visit 1 Evaluator (VRef 1%nat) w_negate_number =
    (Raise (TypeError BadUnaryOperand), w_negate_number).
Proof.
  assert (repr (heap w_negate_number) (VRef 1%nat) negate_number) as H.
  { apply represents_sound. vm_compute. reflexivity. }
  split; [exact H|].
  exact (proj1 (visit_Negate_of_node_raises _ 1%nat _ _ H (le_n 1)) eq_refl).
Defined.

(** C4.  The call of a node class checks the number of its arguments, and
    nothing else: on the right number (one for [Negate] and for [Number],
    two for a binary operator) it allocates one instance that stores the
    arguments as they are and leaves the rest of the world alone; on any
    other number it raises the arity error, the [MalformedTree] of the
    specification.  No visit of [NodeVisitor], of [Evaluator] or of their
    recording subclasses raises that error. *)
Theorem constructors_check_arity (c : cls.t) (args : list val) (w : world) :
  (length args = arity c ->
   construct c args w =
     (Return (VRef (length (heap w))),
      World (heap w ++ [Instance c (stored c args)]) (output w))) /\
  (length args <> arity c ->
   exists e, (construct c args w).1 = Raise e /\ MalformedTree e) /\
  (arity cls.Negate = 1%nat /\ arity cls.Number = 1%nat /\
   (binary_operator c = true -> arity c = 2%nat)) /\
  (forall self depth v w' e,
     self = NodeVisitor \/ self = Evaluator \/
     self = recording NodeVisitor \/ self = recording Evaluator ->
     (visit depth self v w').1 = Raise e -> ~ MalformedTree e).
Proof.
  split; [apply construct_ok|]. split; [|split].
  - intros Hn. eexists. split; [by apply construct_bad_arity|].
    by eexists _, _, _.
  - split; [done|]. split; [done|]. by destruct c.
  - intros self depth v w' e Hs. apply visit_arity_safe.
    destruct Hs as [->|[->|[->| ->]]];
      auto using NodeVisitor_arity_safe, Evaluator_arity_safe,
        recording_arity_safe.
Qed.

Lemma constructors_check_arity_Add :
  length [VInt 1] <> arity cls.Add /\
  exists e,
    (construct cls.Add [VInt 1] empty_world).1 = Raise e /\ MalformedTree e.
Proof.
  assert (length [VInt 1] <> arity cls.Add) as H by discriminate.
  split; [exact H|].
  exact (proj1 (proj2 (constructors_check_arity cls.Add [VInt 1] empty_world))
           H).
Defined.

(** C5.  When the strategy has no method for the type of the node, [visit]
    calls [self.generic_visit]; the one of [NodeVisitor] raises the
    [RuntimeError] that names the missing method, the world being left as
    it was.  A binary handler of a strategy without a handler for [Negate]
    whose left child is a [Negate] ends with that error as soon as the
    child is entered: the right child is never visited. *)
Theorem visit_unhandled_variant :
  (forall self depth node w tag,
     type_name node w = (Return tag, w) ->
     self !! ("visit_" +:+ tag) = None ->
     visit (S depth) self node w =
       self_generic_visit self (visit depth self) node w /\
     (self !! "generic_visit" = Some generic_visit ->
      exists e,
        visit (S depth) self node w = (Raise e, w) /\
        UnhandledVariant tag e)) /\
  (forall depth node w c x y,
     binary_operator c = true ->
     is_binary (heap w) node c x y ->
     is_instance (heap w) x cls.Negate ->
     exists e,
       visit (S (S depth)) (recording Evaluator_without_Negate) node w =
         (Raise e, World (heap w) (output w ++ [Enter node; Enter x])) /\
       UnhandledVariant "Negate" e).
Proof.
  split.
  - intros self depth node w tag Hn Hm.
    assert (visit (S depth) self node w =
            self_generic_visit self (visit depth self) node w) as Hv.
    { rewrite visit_S. unfold bind at 1. by rewrite Hn, Hm. }
    split; [done|]. intros Hg.
    exists (unhandled tag). split; [|apply unhandled_UnhandledVariant].
    rewrite Hv. unfold self_generic_visit. rewrite Hg.
    by apply generic_visit_run.
  - intros depth node w c x y Hc Hb Hx.
    exists (unhandled "Negate"). split; [|apply unhandled_UnhandledVariant].
    pose proof (is_binary_instance _ _ _ _ _ Hb) as Hi.
    set (R := recording Evaluator_without_Negate).
    set (w0 := World (heap w) (output w ++ [Enter node])).
    assert (visit (S depth) R x w0 =
            (Raise (unhandled "Negate"),
             World (heap w) (output w0 ++ [Enter x]))) as Hk.
    { rewrite visit_S. unfold bind at 1.
      rewrite (type_name_instance w0 x cls.Negate) by exact Hx.
      change (reporting generic_visit (visit depth R) x w0 =
              (Raise (unhandled "Negate"),
               World (heap w) (output w0 ++ [Enter x]))).
      rewrite reporting_run.
      rewrite (generic_visit_run _ _ _ "Negate"); [done|].
      apply (type_name_instance _ x cls.Negate). exact Hx. }
    rewrite visit_S. unfold bind at 1.
    rewrite (type_name_instance w node c Hi).
    assert (match R !! ("visit_" +:+ cls.name c) with
            | Some m => m
            | None => self_generic_visit R
            end = reporting (visit_binary (operator_of c))) as ->.
    { by destruct c. }
    rewrite reporting_run.
    rewrite (visit_binary_run _ _ w0 node c x y _ _ Hb Hk eq_refl).
    simpl. by rewrite <- (assoc_L (++)).
Qed.

Lemma visit_unhandled_variant_Negate :
  binary_operator cls.Add = true /\
  is_binary (heap w_negate_then_number) (VRef 3%nat) cls.Add
    (VRef 1%nat) (VRef 2%nat) /\
  is_instance (heap w_negate_then_number) (VRef 1%nat) cls.Negate /\
  exists e,
    visit 2 (recording Evaluator_without_Negate) (VRef 3%nat)
      w_negate_then_number =
      (Raise e,
       World (heap w_negate_then_number) [Enter (VRef 3%nat); Enter (VRef 1%nat)])
    /\ UnhandledVariant "Negate" e.
Proof.
  assert (is_binary (heap w_negate_then_number) (VRef 3%nat) cls.Add
            (VRef 1%nat) (VRef 2%nat)) as Hb.
  { split; apply attr_of_sound; vm_compute; reflexivity. }
  assert (is_instance (heap w_negate_then_number) (VRef 1%nat) cls.Negate)
    as Hx.
  { apply instance_of_sound. vm_compute. reflexivity. }
  split; [reflexivity|]. split; [exact Hb|]. split; [exact Hx|].
  exact (proj2 visit_unhandled_variant 0%nat _ _ cls.Add _ _ eq_refl Hb Hx).
Defined.

(** C6.  [Div] checks nothing: when the divisor evaluates to zero, the
    [ZeroDivisionError] of the float division leaves the visit as it is, in
    the world the visit started from. *)
Theorem visit_Div_by_zero
    (l r : arith) (x y : float) (depth : nat) (v : val) (w : world) :
  repr (heap w) v (Div (arith_term l) (arith_term r)) ->
  (height (Div (arith_term l) (arith_term r)) <= depth)%nat ->
  denote l = Return x ->
  denote r = Return y ->
  PrimFloat.eqb y 0 = true ->
  visit depth Evaluator v w = (Raise ZeroDivisionError, w) /\
  ArithmeticFailure ZeroDivisionError.
Proof.
  intros Hr Hd Hl Hy Hz. split; [|by left].
  rewrite (visit_Evaluator_tree _ _ _ _ Hr Hd). simpl.
  rewrite !tree_eval_arith, Hl, Hy. simpl.
  unfold float_divide. by rewrite Hz.
Qed.

Lemma visit_Div_by_zero_one_over_zero :
  repr (heap w_one_over_zero) (VRef 2%nat) one_over_zero /\
  visit 2 Evaluator (VRef 2%nat) w_one_over_zero =
    (Raise ZeroDivisionError, w_one_over_zero).
Proof.
  assert (repr (heap w_one_over_zero) (VRef 2%nat) one_over_zero) as H.
  { apply represents_sound. vm_compute. reflexivity. }
  split; [exact H|].
  exact (proj1 (visit_Div_by_zero (ANumber (Int 1)) (ANumber (Int 0))
                  1%float 0%float 2%nat _ _ H (le_n 2)
                  eq_refl eq_refl eq_refl)).
Defined.

(** C7.  An exception is never caught on its way up.  [visit] ends as the
    method it selected ended.  A binary handler ends with the exception of
    its left child, in the world where it was raised, without visiting the
    right child; otherwise with the exception of its right child.  On a
    tree, the visit by the evaluator ends with the first exception of the
    traversal and, as the events of the recording subclass show, with the
    part of the walk that precedes it: the node that failed and its
    parents are never left. *)
Theorem exceptions_propagate :
  (forall self depth node w tag e w',
     type_name node w = (Return tag, w) ->
     match self !! ("visit_" +:+ tag) with
     | Some m => m
     | None => self_generic_visit self
     end (visit depth self) node w = (Raise e, w') ->
     visit (S depth) self node w = (Raise e, w')) /\
  (forall op (k : val -> M val) w node c x y e w1,
     is_binary (heap w) node c x y ->
     k x w = (Raise e, w1) ->
     visit_binary op k node w = (Raise e, w1)) /\
  (forall op (k : val -> M val) w node c x y a w1 e w2,
     is_binary (heap w) node c x y ->
     k x w = (Return a, w1) ->
     heap w1 = heap w ->
     k y w1 = (Raise e, w2) ->
     visit_binary op k node w = (Raise e, w2)) /\
  (forall t depth v w e,
     repr (heap w) v t ->
     (height t <= depth)%nat ->
     tree_eval t = Raise e ->
     visit depth Evaluator v w = (Raise e, w) /\
     (exists evs,
        visit depth (recording Evaluator) v w =
          (Raise e, World (heap w) (output w ++ evs)) /\
        Forall2 (shows (heap w)) evs (walk t)) /\
     (operands t = None -> walk t = [Entered t]) /\
     (forall a b,
        operands t = Some (a, b) ->
        (forall ea, tree_eval a = Raise ea ->
                    e = ea /\ walk t = Entered t :: walk a) /\
        (forall x, tree_eval a = Return x ->
                   walk t = Entered t :: walk a ++ walk b))).
Proof.
  split; [|split; [|split]].
  - intros self depth node w tag e w' Hn Hm.
    rewrite visit_S. unfold bind at 1. rewrite Hn. exact Hm.
  - intros. by eapply visit_binary_left_raises.
  - intros. by eapply visit_binary_right_raises.
  - intros t depth v w e Hr Hd He. split; [|split; [|split]].
    + by rewrite (visit_Evaluator_tree _ _ _ _ Hr Hd), He.
    + destruct (visit_recording_walks t depth (heap w) Hd v w eq_refl Hr)
        as (evs & Hv & Hw).
      exists evs. by rewrite Hv, He.
    + intros Ho. rewrite (no_operands_walk _ Ho). unfold completes.
      by rewrite He.
    + intros a b Ho. split.
      * intros ea Ha. destruct (walk_left_raises _ _ _ _ Ho Ha) as [Ht Hw].
        split; [congruence|done].
      * intros x Ha. rewrite (operands_walk _ _ _ Ho). unfold completes.
        rewrite He, Ha. by rewrite !app_nil_r.
Qed.

Lemma exceptions_propagate_failing_left :
  repr (heap w_failing_left) (VRef 4%nat) failing_left /\
  (height failing_left <= 3)%nat /\
  tree_eval failing_left = Raise ZeroDivisionError /\
  visit 3 Evaluator (VRef 4%nat) w_failing_left =
    (Raise ZeroDivisionError, w_failing_left) /\
  walk failing_left =
    [Entered failing_left;
     Entered (Div (Number (PyInt 1)) (Number (PyInt 0)));
     Entered (Number (PyInt 1)); Left (Number (PyInt 1));
     Entered (Number (PyInt 0)); Left (Number (PyInt 0))].
Proof.
  assert (repr (heap w_failing_left) (VRef 4%nat) failing_left) as Hr.
  { apply represents_sound. vm_compute. reflexivity. }
  assert (tree_eval failing_left = Raise ZeroDivisionError) as He.
  { vm_compute. reflexivity. }
  split; [exact Hr|]. split; [apply le_n|]. split; [exact He|].
  destruct (proj2 (proj2 (proj2 exceptions_propagate))
              failing_left 3%nat _ _ _ Hr (le_n 3) He) as (Hv & _ & _ & Hw).
  split; [exact Hv|].
  destruct (Hw _ _ eq_refl) as [Hl _].
  destruct (Hl ZeroDivisionError) as [_ ->]; vm_compute; reflexivity.
Defined.

(** C8.  The traversal is depth first and from left to right.  On every
    tree the recording evaluator emits, over an unchanged store, exactly
    the events of [walk]: a node is entered, the whole walk of its left
    subtree follows, then the whole walk of its right subtree, then the
    node is left.  On [Add(Number(1), Mul(Number(2), Number(3)))] the
    handlers complete in the order [Number(1)], [Number(2)], [Number(3)],
    [Mul], [Add]. *)
Theorem traversal_left_to_right :
  (forall t depth v w,
     repr (heap w) v t ->
     (height t <= depth)%nat ->
     exists evs,
       visit depth (recording Evaluator) v w =
         (tree_eval t, World (heap w) (output w ++ evs)) /\
       Forall2 (shows (heap w)) evs (walk t)) /\
  (forall t a b,
     operands t = Some (a, b) ->
     completes t = true ->
     walk t = Entered t :: walk a ++ walk b ++ [Left t]) /\
  completions (walk ordered) =
    [Number (PyInt 1); Number (PyInt 2); Number (PyInt 3);
     Mul (Number (PyInt 2)) (Number (PyInt 3)); ordered].
Proof.
  split; [|split].
  - intros t depth v w Hr Hd.
    exact (visit_recording_walks t depth (heap w) Hd v w eq_refl Hr).
  - intros t a b Ho Hc. by destruct (walk_completes _ _ _ Ho Hc) as (_ & _ & ?).
  - vm_compute. reflexivity.
Qed.

Lemma traversal_left_to_right_ordered :
  repr (heap w_ordered) (VRef 4%nat) ordered /\
  (height ordered <= 3)%nat /\
  exists evs,
    visit 3 (recording Evaluator) (VRef 4%nat) w_ordered =
      (tree_eval ordered, World (heap w_ordered) (output w_ordered ++ evs)) /\
    Forall2 (shows (heap w_ordered)) evs (walk ordered).
Proof.
  assert (repr (heap w_ordered) (VRef 4%nat) ordered) as Hr.
  { apply represents_sound. vm_compute. reflexivity. }
  split; [exact Hr|]. split; [apply le_n|].
  exact (proj1 traversal_left_to_right ordered 3%nat _ _ Hr (le_n 3)).
Defined.

(** What the recording evaluator emits on the example, reference by
    reference: the instances are numbered in the order of their creation,
    [Number(1)], [Number(2)], [Number(3)], [Mul], [Add]. *)
Example ordered_events :
  run 3 (recording Evaluator) ordered empty_world =
  (Return (VFloat 7),
   World (heap w_ordered)
     [Enter (VRef 4%nat);
      Enter (VRef 0%nat); Leave (VRef 0%nat);
      Enter (VRef 3%nat);
      Enter (VRef 1%nat); Leave (VRef 1%nat);
      Enter (VRef 2%nat); Leave (VRef 2%nat);
      Leave (VRef 3%nat);
      Leave (VRef 4%nat)]).
Proof. vm_compute. reflexivity. Qed.

(** C9.  Determinism.  For a strategy whose methods only observe the store
    (as [NodeVisitor], [Evaluator] and their recording subclasses do), any
    number of dispatches of one value in a row have the outcome of the
    first one, and leave the store as it was. *)
Theorem repeated_dispatch_same_outcome
    (self : gmap string method) (n depth : nat) (v : val) (w : world) :
  strategy_observer self ->
  (dispatch_times n depth self v w).1 =
    replicate n (visit depth self v w).1 /\
  heap (dispatch_times n depth self v w).2 = heap w.
Proof.
  intros Hs. pose proof (visit_observer self Hs depth v) as Hv.
  revert w. induction n as [|n IH]; intros w; [done|].
  simpl. destruct (Hv w) as [Hh _].
  destruct (visit depth self v w) as [r w1] eqn:H1. simpl in Hh.
  destruct (IH w1) as [IH1 IH2].
  destruct (dispatch_times n depth self v w1) as [rs w2]. simpl in *.
  split; [|congruence]. f_equal. rewrite IH1. f_equal.
  destruct (Hv w) as [_ Ho]. rewrite (Ho w1 Hh). by rewrite H1.
Qed.

Lemma repeated_dispatch_same_outcome_t4 :
  strategy_observer Evaluator /\
  (dispatch_times 3 5 Evaluator (VRef 8%nat) w4).1 =
    replicate 3 (visit 5 Evaluator (VRef 8%nat) w4).1.
Proof.
  split; [exact Evaluator_observer|].
  exact (proj1 (repeated_dispatch_same_outcome Evaluator 3 5 (VRef 8%nat) w4
                  Evaluator_observer)).
Defined.

(** C10.  No dispatch writes to the store: after a visit by a strategy of
    the module, every instance has the class and the attributes it had, so
    a value unfolds to the tree it unfolded to, and a second visit, by
    another strategy, ends as it would have ended had the first one never
    run, again over the same store.  [NodeVisitor] and [Evaluator] change
    nothing at all. *)
Theorem dispatch_leaves_tree_unchanged
    (self1 self2 : gmap string method) (depth1 depth2 : nat)
    (v : val) (w : world) :
  source_strategy self1 ->
  source_strategy self2 ->
  heap (visit depth1 self1 v w).2 = heap w /\
  (forall x t, repr (heap w) x t -> repr (heap (visit depth1 self1 v w).2) x t) /\
  (visit depth2 self2 v (visit depth1 self1 v w).2).1 =
    (visit depth2 self2 v w).1 /\
  heap (visit depth2 self2 v (visit depth1 self1 v w).2).2 = heap w /\
  (self1 = NodeVisitor \/ self1 = Evaluator ->
   (visit depth1 self1 v w).2 = w).
Proof.
  intros H1 H2.
  assert (self1 = NodeVisitor \/ self1 = Evaluator ->
          (visit depth1 self1 v w).2 = w) as Hs.
  { intros [->| ->]; apply visit_silent;
      auto using NodeVisitor_silent, Evaluator_silent. }
  apply source_strategy_observer in H1, H2.
  destruct (visit_observer _ H1 depth1 v w) as [Hh1 _].
  destruct (visit_observer _ H2 depth2 v w) as [_ Ho2].
  destruct (visit_observer _ H2 depth2 v (visit depth1 self1 v w).2)
    as [Hh2 _].
  split; [done|]. split; [by rewrite Hh1|]. split; [by apply Ho2|].
  split; [congruence|exact Hs].
Qed.

Lemma dispatch_leaves_tree_unchanged_t4 :
  source_strategy (recording Evaluator) /\
  source_strategy Evaluator /\
  heap (visit 5 (recording Evaluator) (VRef 8%nat) w4).2 = heap w4 /\
  (visit 5 Evaluator (VRef 8%nat)
     (visit 5 (recording Evaluator) (VRef 8%nat) w4).2).1 =
    (visit 5 Evaluator (VRef 8%nat) w4).1.
Proof.
  assert (source_strategy (recording Evaluator)) as H1
    by exact (source_recording _ source_Evaluator).
  split; [exact H1|]. split; [exact source_Evaluator|].
  destruct (dispatch_leaves_tree_unchanged (recording Evaluator) Evaluator
              5 5 (VRef 8%nat) w4 H1 source_Evaluator) as (Hh & _ & Ho & _).
  split; [exact Hh|exact Ho].
Defined.

(** * Further results *)

(** ** The dispatch of [Evaluator], class by class *)

Lemma Evaluator_class_dispatch c :
  match Evaluator !! ("visit_" +:+ cls.name c) with
  | Some m => m
  | None => self_generic_visit Evaluator
  end = Evaluator_method_of c.
Proof. destruct c; reflexivity. Qed.

Lemma Evaluator_builtin_dispatch x :
  match Evaluator !! ("visit_" +:+ builtin_type_name x) with
  | Some m => m
  | None => self_generic_visit Evaluator
  end = generic_visit.
Proof. destruct x; reflexivity. Qed.

Lemma type_name_builtin x w :
  (forall l, x <> VRef l) ->
  type_name x w = (Return (builtin_type_name x), w).
Proof. destruct x; try done. intros H. by destruct (H l). Qed.

Lemma Evaluator_method_of_binary c :
  binary_operator c = true ->
  Evaluator_method_of c = visit_binary (operator_of c).
Proof. by destruct c. Qed.

Lemma Evaluator_method_of_unhandled c :
  handled c = false -> Evaluator_method_of c = generic_visit.
Proof. by destruct c. Qed.

(** One step of [visit] by the evaluator on an instance, on a raw value. *)
Lemma visit_Evaluator_instance depth v w c :
  is_instance (heap w) v c ->
  visit (S depth) Evaluator v w =
  Evaluator_method_of c (visit depth Evaluator) v w.
Proof.
  intros Hi. rewrite visit_S. unfold bind at 1.
  by rewrite (type_name_instance _ _ _ Hi), Evaluator_class_dispatch.
Qed.

Lemma visit_Evaluator_builtin depth x w :
  (forall l, x <> VRef l) ->
  visit (S depth) Evaluator x w = (Raise (unhandled (builtin_type_name x)), w).
Proof.
  intros Hx. rewrite visit_S. unfold bind at 1.
  rewrite (type_name_builtin _ _ Hx), Evaluator_builtin_dispatch.
  by apply generic_visit_run, type_name_builtin.
Qed.

(** ** The values the operators return *)








(** X2.  The dispatch is on the exact class.  An instance of [Node],
    [UnaryOperator] or [BinaryOperator] has no handler in [Evaluator],
    although [Negate] and the binary operators inherit from them, and
    neither has a raw integer, float or [None]: their visit raises the
    [RuntimeError] that names the type.  So a binary node whose left child
    is a raw value fails with that error, whatever its right child is. *)
Theorem Evaluator_dispatch_exact_class (depth : nat) (w : world) :
  (forall v c,
     is_instance (heap w) v c ->
     handled c = false ->
     visit (S depth) Evaluator v w = (Raise (unhandled (cls.name c)), w)) /\
  (forall x,
     (forall l, x <> VRef l) ->
     visit (S depth) Evaluator x w =
       (Raise (unhandled (builtin_type_name x)), w)) /\
  (forall node c x y,
     binary_operator c = true ->
     is_binary (heap w) node c x y ->
     (forall l, x <> VRef l) ->
     visit (S (S depth)) Evaluator node w =
       (Raise (unhandled (builtin_type_name x)), w)).
Proof.
  split; [|split].
  - intros v c Hi Hc. rewrite (visit_Evaluator_instance _ _ _ _ Hi).
    rewrite (Evaluator_method_of_unhandled _ Hc).
    by apply generic_visit_run, type_name_instance.
  - intros x Hx. by apply visit_Evaluator_builtin.
  - intros node c x y Hc Hb Hx.
    rewrite (visit_Evaluator_instance _ _ _ c)
      by (by eapply is_binary_instance).
    rewrite (Evaluator_method_of_binary _ Hc).
    eapply visit_binary_left_raises; [exact Hb|].
    by apply visit_Evaluator_builtin.
Qed.

Lemma Evaluator_dispatch_exact_class_raw :
  binary_operator cls.Add = true /\
  is_binary (heap w_add_raw) (VRef 1%nat) cls.Add (VInt 1) (VRef 0%nat) /\
  visit 2 Evaluator (VRef 1%nat) w_add_raw =
    (Raise (RuntimeError "No visit_int method"), w_add_raw).
Proof.
  assert (is_binary (heap w_add_raw) (VRef 1%nat) cls.Add (VInt 1)
            (VRef 0%nat)) as Hb.
  { split; apply attr_of_sound; vm_compute; reflexivity. }
  split; [reflexivity|]. split; [exact Hb|].
  refine (proj2 (proj2 (Evaluator_dispatch_exact_class 0 w_add_raw))
            (VRef 1%nat) cls.Add (VInt 1) (VRef 0%nat) eq_refl Hb _).
  intros l. discriminate.
Defined.

(** ** Subclasses of the evaluator *)





(** The subclass differs from [Evaluator] where it was meant to: on an
    instance of [UnaryOperator], unhandled by [Evaluator]. *)
Example Lenient_UnaryOperator :
  (run 1 Lenient (UnaryOperator (PyInt 1)) empty_world).1 = Return VNone /\
  (run 1 Evaluator (UnaryOperator (PyInt 1)) empty_world).1 =
    Raise (RuntimeError "No visit_UnaryOperator method").
Proof. split; vm_compute; reflexivity. Qed.

(** ** Trees that always evaluate *)

Lemma total_tree_eval t :
  total_tree t = true -> exists f, tree_eval t = Return (VFloat f).
Proof.
  induction t as [z|f| | |o IHo|a IHa b IHb|a IHa b IHb|a IHa b IHb
                 |a IHa b IHb|a IHa b IHb|o IHo|o IHo];
    simpl; try done.
  1-3: intros [Ha Hb]%andb_true_iff;
    destruct (IHa Ha) as [x ->], (IHb Hb) as [y ->]; simpl; eauto.
  destruct o; try done; unfold on_attribute; simpl; [|by eauto].
  destruct (int_to_float z); simpl; [by eauto|done].
Qed.

(** X4.  Addition, subtraction and multiplication never fail: a tree of
    [Number], [Add], [Sub] and [Mul] whose integer literals have a float
    always evaluates to a float (an overflow of the float arithmetic gives
    an infinity, not an exception). *)
Theorem Evaluator_total_without_Div
    (t : term) (depth : nat) (v : val) (w : world) :
  total_tree t = true ->
  repr (heap w) v t ->
  (height t <= depth)%nat ->
  exists f, visit depth Evaluator v w = (Return (VFloat f), w).
Proof.
  intros Ht Hr Hd. rewrite (visit_Evaluator_tree t depth v w Hr Hd).
  destruct (total_tree_eval t Ht) as [f ->]. eauto.
Qed.

Lemma Evaluator_total_without_Div_ordered :
  total_tree ordered = true /\
  exists f,
    visit 3 Evaluator (VRef 4%nat) w_ordered = (Return (VFloat f), w_ordered).
Proof.
  split; [vm_compute; reflexivity|].
  refine (Evaluator_total_without_Div ordered 3 (VRef 4%nat) w_ordered
            _ _ (le_n 3)).
  - vm_compute. reflexivity.
  - apply represents_sound. vm_compute. reflexivity.
Defined.

(** Large operands overflow to an infinity. *)
Example Mul_overflows_to_infinity :
  (run 2 Evaluator (Mul (Number (PyFloat 1e200)) (Number (PyFloat 1e200)))
     empty_world).1 = Return (VFloat infinity).
Proof. vm_compute. reflexivity. Qed.

(** ** Reading a tree back from the store *)

Lemma has_attr_class_of_value h v c attr x :
  has_attr h v c attr x -> class_of_value h v = Some c.
Proof. intros (l & o & -> & Hl & <- & _). simpl. by rewrite Hl. Qed.

Lemma is_instance_class_of_value h v c :
  is_instance h v c -> class_of_value h v = Some c.
Proof. intros (l & o & -> & Hl & <-). simpl. by rewrite Hl. Qed.

Lemma has_attr_functional h v c c' attr x x' :
  has_attr h v c attr x -> has_attr h v c' attr x' -> x = x'.
Proof.
  intros (l & o & -> & Hl & _ & Hx) (l' & o' & [= <-] & Hl' & _ & Hx').
  congruence.
Qed.

Lemma repr_class h v t : repr h v t -> class_of_value h v = term_class t.
Proof.
  destruct t; simpl.
  1-3: by intros ->.
  - apply is_instance_class_of_value.
  - intros (x & H & _). by eapply has_attr_class_of_value.
  - intros (x & y & [H _] & _). by eapply has_attr_class_of_value.
  - intros (x & y & [H _] & _). by eapply has_attr_class_of_value.
  - intros (x & y & [H _] & _). by eapply has_attr_class_of_value.
  - intros (x & y & [H _] & _). by eapply has_attr_class_of_value.
  - intros (x & y & [H _] & _). by eapply has_attr_class_of_value.
  - intros (x & H & _). by eapply has_attr_class_of_value.
  - intros (x & H & _). by eapply has_attr_class_of_value.
Qed.

(** A value unfolds to one tree at most. *)
Lemma repr_functional h t :
  forall v t', repr h v t -> repr h v t' -> t = t'.
Proof.
  induction t as [z|f| | |o IHo|a IHa b IHb|a IHa b IHb|a IHa b IHb
                 |a IHa b IHb|a IHa b IHb|o IHo|o IHo];
    intros v t' H H';
    pose proof (repr_class _ _ _ H) as Hc;
    pose proof (repr_class _ _ _ H') as Hc';
    destruct t'; simpl in Hc, Hc'; try congruence; simpl in H, H';
    try congruence.
  - destruct H as (x & Hx & Ho), H' as (x' & Hx' & Ho').
    rewrite (has_attr_functional _ _ _ _ _ _ _ Hx Hx') in Ho.
    f_equal. by eapply IHo.
  - destruct H as (x & y & [Hx Hy] & Ha & Hb),
      H' as (x' & y' & [Hx' Hy'] & Ha' & Hb').
    rewrite (has_attr_functional _ _ _ _ _ _ _ Hx Hx') in Ha.
    rewrite (has_attr_functional _ _ _ _ _ _ _ Hy Hy') in Hb.
    f_equal; [by eapply IHa|by eapply IHb].
  - destruct H as (x & y & [Hx Hy] & Ha & Hb),
      H' as (x' & y' & [Hx' Hy'] & Ha' & Hb').
    rewrite (has_attr_functional _ _ _ _ _ _ _ Hx Hx') in Ha.
    rewrite (has_attr_functional _ _ _ _ _ _ _ Hy Hy') in Hb.
    f_equal; [by eapply IHa|by eapply IHb].
  - destruct H as (x & y & [Hx Hy] & Ha & Hb),
      H' as (x' & y' & [Hx' Hy'] & Ha' & Hb').
    rewrite (has_attr_functional _ _ _ _ _ _ _ Hx Hx') in Ha.
    rewrite (has_attr_functional _ _ _ _ _ _ _ Hy Hy') in Hb.
    f_equal; [by eapply IHa|by eapply IHb].
  - destruct H as (x & y & [Hx Hy] & Ha & Hb),
      H' as (x' & y' & [Hx' Hy'] & Ha' & Hb').
    rewrite (has_attr_functional _ _ _ _ _ _ _ Hx Hx') in Ha.
    rewrite (has_attr_functional _ _ _ _ _ _ _ Hy Hy') in Hb.
    f_equal; [by eapply IHa|by eapply IHb].
  - destruct H as (x & y & [Hx Hy] & Ha & Hb),
      H' as (x' & y' & [Hx' Hy'] & Ha' & Hb').
    rewrite (has_attr_functional _ _ _ _ _ _ _ Hx Hx') in Ha.
    rewrite (has_attr_functional _ _ _ _ _ _ _ Hy Hy') in Hb.
    f_equal; [by eapply IHa|by eapply IHb].
  - destruct H as (x & Hx & Ho), H' as (x' & Hx' & Ho').
    rewrite (has_attr_functional _ _ _ _ _ _ _ Hx Hx') in Ho.
    f_equal. by eapply IHo.
  - destruct H as (x & Hx & Ho), H' as (x' & Hx' & Ho').
    rewrite (has_attr_functional _ _ _ _ _ _ _ Hx Hx') in Ho.
    f_equal. by eapply IHo.
Qed.

(** X5.  Assembly and reading back are inverse: the nested calls of the
    node classes that [t] stands for succeed in any world, and what the
    store then holds at the returned value unfolds to [t] and to no other
    tree; the values that unfolded to a tree before still unfold to it,
    and nothing is emitted. *)
Theorem build_read_back (t : term) (w : world) :
  exists v w',
    build t w = (Return v, w') /\
    (forall t', repr (heap w') v t' <-> t' = t) /\
    (forall x u, repr (heap w) x u -> repr (heap w') x u) /\
    output w' = output w.
Proof.
  destruct (build_assembled t w) as (v & w' & Hb & Hr & Hp & Ho).
  exists v, w'. split; [done|]. split; [|split; [|done]].
  - intros t'. split; [|by intros ->].
    intros Hr'. by eapply repr_functional.
  - intros x u. by apply repr_extend.
Qed.

(** ** Stores made by the constructors *)

Lemma valid_extend h h' v : h `prefix_of` h' -> valid h v -> valid h' v.
Proof.
  intros Hp. destruct v; simpl; try done.
  apply prefix_length in Hp. lia.
Qed.

Lemma initialised_extend h h' o :
  h `prefix_of` h' -> initialised h o -> initialised h' o.
Proof.
  intros Hp Ho attr Ha. destruct (Ho attr Ha) as (x & Hx & Hv).
  exists x. split; [done|]. by eapply valid_extend.
Qed.

Lemma well_formed_store_nil : well_formed_store [].
Proof. by intros l o. Qed.

Lemma stored_initialised h c args :
  length args = arity c ->
  Forall (valid h) args ->
  initialised h (Instance c (stored c args)).
Proof.
  intros Hn Hv attr Ha. simpl in Ha.
  destruct c; destruct args as [|x [|y [|z args]]]; try discriminate Hn;
    simpl in Ha.
  1: by apply elem_of_nil in Ha.
  all: repeat match goal with
       | H : Forall _ (_ :: _) |- _ =>
           apply Forall_cons in H as [? H]
       end.
  all: repeat match goal with
       | H : _ ∈ _ :: _ |- _ => apply elem_of_cons in H as [->|H]
       | H : _ ∈ [] |- _ => by apply elem_of_nil in H
       end.
  all: eexists; cbn [ob_dict];
    rewrite ?stored_number, ?stored_unary, ?stored_binary by reflexivity;
    (split;
     [ first [ apply lookup_insert_eq
             | rewrite lookup_insert_ne by done; apply lookup_insert_eq ]
     | assumption ]).
Qed.

Lemma well_formed_store_snoc h o :
  well_formed_store h ->
  initialised h o ->
  well_formed_store (h ++ [o]).
Proof.
  intros Hh Ho l o' Hl.
  apply lookup_app_Some in Hl as [Hl|[_ Hl]].
  - eapply initialised_extend; [by apply prefix_app_r|]. by eapply Hh.
  - apply list_lookup_singleton_Some in Hl as [_ <-].
    eapply initialised_extend; [by apply prefix_app_r|done].
Qed.

Lemma well_formed_store_attr h l o attr :
  well_formed_store h ->
  h !! l = Some o ->
  attr ∈ init_attrs (ob_type o) ->
  exists x, has_attr h (VRef l) (ob_type o) attr x /\ valid h x.
Proof.
  intros Hh Hl Ha. destruct (Hh l o Hl attr Ha) as (x & Hx & Hv).
  exists x. split; [|done]. by exists l, o.
Qed.

Lemma valid_instance h l :
  valid h (VRef l) -> exists o, h !! l = Some o /\ is_instance h (VRef l) (ob_type o).
Proof.
  simpl. intros [o Ho]%lookup_lt_is_Some. exists o. split; [done|].
  by exists l, o.
Qed.

(** X6.  The constructors keep the store well formed: when every instance
    carries the attributes its class sets, each holding a value that does
    not dangle, so it is after a call of a node class on valid arguments
    and after the assembly of any tree, and the value returned is valid.
    The empty store is well formed. *)
Theorem constructors_keep_store_well_formed :
  well_formed_store [] /\
  (forall c args w,
     well_formed_store (heap w) ->
     Forall (valid (heap w)) args ->
     length args = arity c ->
     exists v w',
       construct c args w = (Return v, w') /\
       well_formed_store (heap w') /\ valid (heap w') v) /\
  (forall t w,
     well_formed_store (heap w) ->
     exists v w',
       build t w = (Return v, w') /\
       well_formed_store (heap w') /\ valid (heap w') v /\
       heap w `prefix_of` heap w').
Proof.
  assert (forall c args w,
     well_formed_store (heap w) ->
     Forall (valid (heap w)) args ->
     length args = arity c ->
     exists v w',
       construct c args w = (Return v, w') /\
       well_formed_store (heap w') /\ valid (heap w') v /\
       heap w `prefix_of` heap w') as Hc.
  { intros c args w Hw Ha Hn. eexists _, _.
    split; [by apply construct_ok|]. simpl. split; [|split].
    - apply well_formed_store_snoc; [done|]. by apply stored_initialised.
    - rewrite length_app. simpl. lia.
    - by apply prefix_app_r. }
  split; [exact well_formed_store_nil|]. split.
  - intros c args w Hw Ha Hn.
    destruct (Hc c args w Hw Ha Hn) as (v & w' & H1 & H2 & H3 & _). eauto.
  - assert (forall c t0 w,
      arity c = 1%nat ->
      (forall w, well_formed_store (heap w) ->
         exists v w', build t0 w = (Return v, w') /\
           well_formed_store (heap w') /\ valid (heap w') v /\
           heap w `prefix_of` heap w') ->
      well_formed_store (heap w) ->
      exists v w',
        (let* vo := build t0 in construct c [vo]) w = (Return v, w') /\
        well_formed_store (heap w') /\ valid (heap w') v /\
        heap w `prefix_of` heap w') as Hun.
    { intros c t0 w Hn IH Hw.
      destruct (IH w Hw) as (v0 & w0 & Hb & Hw0 & Hv0 & Hp0).
      destruct (Hc c [v0] w0 Hw0) as (v & w' & Hb' & Hw' & Hv' & Hp');
        [by repeat constructor|done|].
      exists v, w'. unfold bind. rewrite Hb.
      split; [done|]. split; [done|]. split; [done|]. by etrans. }
    assert (forall c ta tb w,
      arity c = 2%nat ->
      (forall w, well_formed_store (heap w) ->
         exists v w', build ta w = (Return v, w') /\
           well_formed_store (heap w') /\ valid (heap w') v /\
           heap w `prefix_of` heap w') ->
      (forall w, well_formed_store (heap w) ->
         exists v w', build tb w = (Return v, w') /\
           well_formed_store (heap w') /\ valid (heap w') v /\
           heap w `prefix_of` heap w') ->
      well_formed_store (heap w) ->
      exists v w',
        (let* x := build ta in let* y := build tb in construct c [x; y]) w =
          (Return v, w') /\
        well_formed_store (heap w') /\ valid (heap w') v /\
        heap w `prefix_of` heap w') as Hbin.
    { intros c ta tb w Hn IHa IHb Hw.
      destruct (IHa w Hw) as (va & wa & Hba & Hwa & Hva & Hpa).
      destruct (IHb wa Hwa) as (vb & wb & Hbb & Hwb & Hvb & Hpb).
      destruct (Hc c [va; vb] wb Hwb) as (v & w' & Hb' & Hw' & Hv' & Hp');
        [|done|].
      { repeat constructor; [|done]. by eapply valid_extend. }
      exists v, w'. unfold bind. rewrite Hba, Hbb.
      split; [done|]. split; [done|]. split; [done|].
      etrans; [exact Hpa|]. by etrans. }
    intros t.
    induction t as [z|f| | |o IHo|a IHa b IHb|a IHa b IHb|a IHa b IHb
                   |a IHa b IHb|a IHa b IHb|o IHo|o IHo]; intros w Hw.
    1-3: by eexists _, w.
    + destruct (Hc cls.Node [] w Hw) as (v & w' & ?); [done|done|]. eauto.
    + by apply (Hun cls.UnaryOperator).
    + by apply (Hbin cls.BinaryOperator).
    + by apply (Hbin cls.Add).
    + by apply (Hbin cls.Sub).
    + by apply (Hbin cls.Mul).
    + by apply (Hbin cls.Div).
    + by apply (Hun cls.Negate).
    + by apply (Hun cls.Number).
Qed.

(** ** The evaluator on a well-formed store *)

Lemma visit_Evaluator_pair depth v w :
  visit depth Evaluator v w = ((visit depth Evaluator v w).1, w).
Proof.
  pose proof (visit_silent Evaluator Evaluator_silent depth v w) as Hs.
  destruct (visit depth Evaluator v w) as [o w']. simpl in *. by subst.
Qed.

Lemma float__raises x e :
  float_ x = Raise e -> e = TypeError BadFloatArgument \/ e = OverflowError.
Proof.
  destruct x; simpl; try (intros [= <-]; by left).
  destruct (int_to_float z) eqn:Hz; simpl; [done|].
  intros [= <-]. right. by eapply int_to_float_raises.
Qed.

Lemma py_neg_raises x e : py_neg x = Raise e -> e = TypeError BadUnaryOperand.
Proof. destruct x; simpl; by intros [= <-]. Qed.

Lemma init_attrs_binary c :
  binary_operator c = true -> init_attrs c = ["left"; "right"].
Proof. by destruct c. Qed.

(** The instances of a binary class, of [Negate] and of [Number] in a
    well-formed store carry what their handler reads. *)
Lemma well_formed_store_binary h l o :
  well_formed_store h ->
  h !! l = Some o ->
  binary_operator (ob_type o) = true ->
  exists x y,
    is_binary h (VRef l) (ob_type o) x y /\ valid h x /\ valid h y.
Proof.
  intros Hh Hl Hc. pose proof (init_attrs_binary _ Hc) as Ha.
  destruct (well_formed_store_attr h l o "left" Hh Hl) as (x & Hx & Hvx).
  { rewrite Ha. apply elem_of_cons. by left. }
  destruct (well_formed_store_attr h l o "right" Hh Hl) as (y & Hy & Hvy).
  { rewrite Ha. apply elem_of_cons. right. apply elem_of_cons. by left. }
  by exists x, y.
Qed.

Lemma well_formed_store_unary h l o attr :
  well_formed_store h ->
  h !! l = Some o ->
  init_attrs (ob_type o) = [attr] ->
  exists x, has_attr h (VRef l) (ob_type o) attr x /\ valid h x.
Proof.
  intros Hh Hl Ha. apply (well_formed_store_attr h l o attr Hh Hl).
  rewrite Ha. apply elem_of_cons. by left.
Qed.

(** X7.  On a well-formed store the handlers find what they read: the
    visit of a valid value by [Evaluator] never raises [AttributeError] and
    never meets a dangling reference, whatever the shape of the store
    (shared subtrees, cycles, raw values in the place of nodes). *)
Theorem Evaluator_attribute_safe
    (depth : nat) (v : val) (w : world) (e : exn) :
  well_formed_store (heap w) ->
  valid (heap w) v ->
  (visit depth Evaluator v w).1 = Raise e ->
  ~ reference_error e.
Proof.
  intros Hw. revert v e.
  induction depth as [|depth IH]; intros v e Hv.
  { intros [= <-] [?|[? ?]]; done. }
  destruct v as [z|f| |l].
  1-3: rewrite visit_Evaluator_builtin by done;
    intros [= <-] [?|[? ?]]; done.
  destruct (valid_instance _ _ Hv) as (o & Hl & Hi).
  rewrite (visit_Evaluator_instance _ _ _ _ Hi).
  destruct (binary_operator (ob_type o)) eqn:Hb.
  - destruct (well_formed_store_binary _ _ _ Hw Hl Hb)
      as (x & y & Hxy & Hvx & Hvy).
    rewrite (Evaluator_method_of_binary _ Hb).
    rewrite (visit_binary_run _ _ w _ _ x y _ w Hxy
               (visit_Evaluator_pair depth x w) eq_refl).
    destruct (visit depth Evaluator x w).1 as [a|ea] eqn:Ha.
    + rewrite (visit_Evaluator_pair depth y w).
      destruct (visit depth Evaluator y w).1 as [b|eb] eqn:Hyb.
      * simpl. intros He.
        assert (Evaluator_operator (operator_of (ob_type o))) as Hop.
        { unfold Evaluator_operator. destruct (ob_type o); simpl; tauto. }
        destruct (Evaluator_operator_raises _ _ _ _ Hop He)
          as [[->| ->]|[s ->]]; intros [?|[? ?]]; done.
      * simpl. intros [= <-]. by apply (IH y eb Hvy).
    + simpl. intros [= <-]. by apply (IH x ea Hvx).
  - revert Hi. destruct (ob_type o) eqn:Hc; try discriminate Hb; intros Hi;
      simpl.
    1-3: rewrite (generic_visit_run _ _ _ _ (type_name_instance _ _ _ Hi));
         intros [= <-] [?|[? ?]]; done.
    + destruct (well_formed_store_unary _ _ _ "operand" Hw Hl)
        as (x & Hx & _); [by rewrite Hc|].
      rewrite Hc in Hx. rewrite (visit_Negate_run _ _ _ _ Hx). simpl.
      intros ->%py_neg_raises [?|[? ?]]; done.
    + destruct (well_formed_store_unary _ _ _ "value" Hw Hl)
        as (x & Hx & _); [by rewrite Hc|].
      rewrite Hc in Hx. rewrite (visit_Number_run _ _ _ _ Hx). simpl.
      intros [->| ->]%float__raises [?|[? ?]]; done.
Qed.

Lemma valid_in_sound h v : valid_in (length h) v = true -> valid h v.
Proof. destruct v; simpl; try done. by intros ?%Nat.ltb_lt. Qed.

Lemma check_store_sound h : check_store h = true -> well_formed_store h.
Proof.
  unfold check_store. rewrite forallb_forall. intros Hh l o Hl attr Ha.
  assert (In o h) as Ho.
  { apply list_elem_of_In, list_elem_of_lookup. eauto. }
  specialize (Hh o Ho). unfold initialised_in in Hh.
  rewrite forallb_forall in Hh.
  specialize (Hh attr (proj1 (list_elem_of_In _ _) Ha)).
  destruct (ob_dict o !! attr) as [x|]; [|done].
  exists x. split; [done|]. by apply valid_in_sound.
Qed.

Lemma Evaluator_attribute_safe_one_over_zero :
  well_formed_store (heap w_one_over_zero) /\
  valid (heap w_one_over_zero) (VRef 2%nat) /\
  (visit 2 Evaluator (VRef 2%nat) w_one_over_zero).1 =
    Raise ZeroDivisionError /\
  ~ reference_error ZeroDivisionError.
Proof.
  assert (well_formed_store (heap w_one_over_zero)) as Hw.
  { apply check_store_sound. vm_compute. reflexivity. }
  assert (valid (heap w_one_over_zero) (VRef 2%nat)) as Hv.
  { apply valid_in_sound. vm_compute. reflexivity. }
  assert ((visit 2 Evaluator (VRef 2%nat) w_one_over_zero).1 =
          Raise ZeroDivisionError) as He.
  { vm_compute. reflexivity. }
  split; [exact Hw|]. split; [exact Hv|]. split; [exact He|].
  exact (Evaluator_attribute_safe 2 (VRef 2%nat) w_one_over_zero _ Hw Hv He).
Defined.

Lemma constructors_keep_store_well_formed_t4 :
  well_formed_store (heap empty_world) /\
  exists v w',
    build t4 empty_world = (Return v, w') /\
    well_formed_store (heap w') /\ valid (heap w') v /\
    heap empty_world `prefix_of` heap w'.
Proof.
  split; [exact well_formed_store_nil|].
  exact (proj2 (proj2 constructors_keep_store_well_formed) t4 empty_world
           well_formed_store_nil).
Defined.

(** X8.  Later constructions do not disturb an evaluation: on a
    well-formed store, the visit of a valid value by [Evaluator] has the
    same outcome after any number of further instances were created. *)
Theorem Evaluator_stable_under_allocation
    (depth : nat) (v : val) (w w2 : world) :
  well_formed_store (heap w) ->
  valid (heap w) v ->
  heap w `prefix_of` heap w2 ->
  (visit depth Evaluator v w2).1 = (visit depth Evaluator v w).1.
Proof.
  intros Hw Hv Hp. revert v Hv.
  induction depth as [|depth IH]; intros v Hv; [done|].
  destruct v as [z|f| |l].
  1-3: by rewrite !visit_Evaluator_builtin.
  destruct (valid_instance _ _ Hv) as (o & Hl & Hi).
  assert (is_instance (heap w2) (VRef l) (ob_type o)) as Hi2
    by by eapply is_instance_extend.
  rewrite (visit_Evaluator_instance _ _ _ _ Hi).
  rewrite (visit_Evaluator_instance _ _ _ _ Hi2).
  destruct (binary_operator (ob_type o)) eqn:Hb.
  - destruct (well_formed_store_binary _ _ _ Hw Hl Hb)
      as (x & y & Hxy & Hvx & Hvy).
    assert (is_binary (heap w2) (VRef l) (ob_type o) x y) as Hxy2.
    { destruct Hxy. split; by eapply has_attr_extend. }
    rewrite (Evaluator_method_of_binary _ Hb).
    rewrite (visit_binary_run _ _ w _ _ x y _ w Hxy
               (visit_Evaluator_pair depth x w) eq_refl).
    rewrite (visit_binary_run _ _ w2 _ _ x y _ w2 Hxy2
               (visit_Evaluator_pair depth x w2) eq_refl).
    rewrite (IH x Hvx).
    destruct (visit depth Evaluator x w).1 as [a|ea]; [|done].
    rewrite (visit_Evaluator_pair depth y w),
      (visit_Evaluator_pair depth y w2), (IH y Hvy).
    by destruct (visit depth Evaluator y w).1.
  - revert Hi Hi2.
    destruct (ob_type o) eqn:Hc; try discriminate Hb; intros Hi Hi2; simpl.
    1-3: by rewrite
           (generic_visit_run _ _ _ _ (type_name_instance _ _ _ Hi)),
           (generic_visit_run _ _ _ _ (type_name_instance _ _ _ Hi2)).
    + destruct (well_formed_store_unary _ _ _ "operand" Hw Hl)
        as (x & Hx & _); [by rewrite Hc|].
      rewrite Hc in Hx.
      rewrite (visit_Negate_run _ _ _ _ Hx).
      by rewrite (visit_Negate_run _ w2 _ x)
        by (by eapply has_attr_extend).
    + destruct (well_formed_store_unary _ _ _ "value" Hw Hl)
        as (x & Hx & _); [by rewrite Hc|].
      rewrite Hc in Hx.
      rewrite (visit_Number_run _ _ _ _ Hx).
      by rewrite (visit_Number_run _ w2 _ x)
        by (by eapply has_attr_extend).
Qed.

Lemma Evaluator_stable_under_allocation_t4 :
  well_formed_store (heap w4) /\
  valid (heap w4) (VRef 8%nat) /\
  heap w4 `prefix_of` heap w4_then_negate /\
  (visit 5 Evaluator (VRef 8%nat) w4_then_negate).1 =
    (visit 5 Evaluator (VRef 8%nat) w4).1.
Proof.
  assert (well_formed_store (heap w4)) as Hw.
  { apply check_store_sound. vm_compute. reflexivity. }
  assert (valid (heap w4) (VRef 8%nat)) as Hv.
  { apply valid_in_sound. vm_compute. reflexivity. }
  assert (heap w4 `prefix_of` heap w4_then_negate) as Hp.
  { eexists. vm_compute. reflexivity. }
  split; [exact Hw|]. split; [exact Hv|]. split; [exact Hp|].
  exact (Evaluator_stable_under_allocation 5 (VRef 8%nat) w4 w4_then_negate
           Hw Hv Hp).
Defined.

(** ** The recursion budget *)

Lemma visit_Evaluator_invalid depth l w :
  heap w !! l = None ->
  visit (S depth) Evaluator (VRef l) w = (Raise InvalidReference, w).
Proof.
  intros Hl. rewrite visit_S. unfold bind, type_name. by rewrite Hl.
Qed.

Lemma lookup_is_instance h l o :
  h !! l = Some o -> is_instance h (VRef l) (ob_type o).
Proof. intros Hl. by exists l, o. Qed.

(** The outcome of a visit that did not exhaust its recursion budget is
    the one of every larger budget. *)
Lemma visit_Evaluator_budget depth depth' v w :
  (visit depth Evaluator v w).1 <> Raise RecursionError ->
  (depth <= depth')%nat ->
  (visit depth' Evaluator v w).1 = (visit depth Evaluator v w).1.
Proof.
  revert depth' v.
  induction depth as [|depth IH]; intros depth' v Hr Hd; [done|].
  destruct depth' as [|depth']; [lia|].
  assert (depth <= depth')%nat as Hd' by lia.
  destruct v as [z|f| |l].
  1-3: by rewrite !visit_Evaluator_builtin.
  destruct (heap w !! l) as [o|] eqn:Hl;
    [|by rewrite !visit_Evaluator_invalid].
  pose proof (lookup_is_instance _ _ _ Hl) as Hi.
  rewrite (visit_Evaluator_instance depth _ _ _ Hi) in Hr.
  rewrite (visit_Evaluator_instance depth _ _ _ Hi),
    (visit_Evaluator_instance depth' _ _ _ Hi).
  destruct (binary_operator (ob_type o)) eqn:Hb; cycle 1.
  { destruct (ob_type o); try discriminate Hb; reflexivity. }
  rewrite (Evaluator_method_of_binary _ Hb) in Hr |- *.
  revert Hr. unfold visit_binary, bind, getattr. rewrite Hl.
  destruct (ob_dict o !! "left") as [x|]; [|done].
  rewrite (visit_Evaluator_pair depth x w),
    (visit_Evaluator_pair depth' x w).
  intros Hr.
  assert ((visit depth Evaluator x w).1 <> Raise RecursionError) as Hx.
  { intros Hx. apply Hr. by rewrite Hx. }
  rewrite (IH depth' x Hx Hd').
  destruct (visit depth Evaluator x w).1 as [a|ea]; [|done].
  revert Hr. rewrite Hl.
  destruct (ob_dict o !! "right") as [y|]; [|done].
  rewrite (visit_Evaluator_pair depth y w),
    (visit_Evaluator_pair depth' y w).
  intros Hr.
  assert ((visit depth Evaluator y w).1 <> Raise RecursionError) as Hy.
  { intros Hy. apply Hr. by rewrite Hy. }
  rewrite (IH depth' y Hy Hd').
  by destruct (visit depth Evaluator y w).1.
Qed.

(** X9.  The recursion budget only matters when it runs out: a visit by
    [Evaluator] that ends otherwise than by [RecursionError] ends the same
    way, in the same world, under every larger budget. *)
Theorem Evaluator_budget_monotone
    (depth depth' : nat) (v : val) (w w' : world) (o : outcome val) :
  visit depth Evaluator v w = (o, w') ->
  o <> Raise RecursionError ->
  (depth <= depth')%nat ->
  visit depth' Evaluator v w = (o, w').
Proof.
  intros Hv Ho Hd.
  rewrite (visit_Evaluator_pair depth v w) in Hv.
  injection Hv as Ho' Hw'. subst o w'.
  rewrite (visit_Evaluator_pair depth' v w).
  by rewrite (visit_Evaluator_budget depth depth' v w Ho Hd).
Qed.

Lemma Evaluator_budget_monotone_one_over_zero :
  visit 2 Evaluator (VRef 2%nat) w_one_over_zero =
    (Raise ZeroDivisionError, w_one_over_zero) /\
  visit 1000 Evaluator (VRef 2%nat) w_one_over_zero =
    (Raise ZeroDivisionError, w_one_over_zero).
Proof.
  assert (visit 2 Evaluator (VRef 2%nat) w_one_over_zero =
          (Raise ZeroDivisionError, w_one_over_zero)) as Hv.
  { vm_compute. reflexivity. }
  split; [exact Hv|].
  refine (Evaluator_budget_monotone 2 1000 (VRef 2%nat) w_one_over_zero
            w_one_over_zero (Raise ZeroDivisionError) Hv _ _).
  - discriminate.
  - lia.
Defined.

(** X10.  The dispatcher does not detect cycles: when the chain of left
    children from a binary node never leaves binary nodes (as when a node
    was made its own left child), the visit ends with [RecursionError]
    under every recursion budget, the world being left as it was. *)
Theorem Evaluator_cycle_exhausts_budget
    (P : loc -> Prop) (w : world) (l : loc) (depth : nat) :
  left_closed (heap w) P ->
  P l ->
  visit depth Evaluator (VRef l) w = (Raise RecursionError, w).
Proof.
  intros Hc. revert l.
  induction depth as [|depth IH]; intros l Hl; [done|].
  destruct (Hc l Hl) as (o & l' & Ho & Hb & Hleft & Hl').
  rewrite (visit_Evaluator_instance _ _ _ _ (lookup_is_instance _ _ _ Ho)).
  rewrite (Evaluator_method_of_binary _ Hb).
  unfold visit_binary, bind, getattr. rewrite Ho, Hleft.
  by rewrite (IH l' Hl').
Qed.

Lemma Evaluator_cycle_exhausts_budget_own_left :
  left_closed (heap w_own_left) (fun l => l = 0%nat) /\
  visit 1000 Evaluator (VRef 0%nat) w_own_left =
    (Raise RecursionError, w_own_left).
Proof.
  assert (left_closed (heap w_own_left) (fun l => l = 0%nat)) as Hc.
  { intros l ->. eexists _, 0%nat.
    split; [reflexivity|]. split; [reflexivity|]. split; [|reflexivity].
    vm_compute. reflexivity. }
  split; [exact Hc|].
  exact (Evaluator_cycle_exhausts_budget (fun l => l = 0%nat) w_own_left
           0%nat 1000 Hc eq_refl).
Defined.

(** ** The constructors *)


